(** * UFO flappy-style arcade game

    A shallow embedding of the two logic-bearing components of the
    repository:

    - [GameShell] (src/unnamed/part_001): the phase controller that owns the
      run statistics and the persisted best score;
    - [GameCanvas] (src/unnamed/part_000): the difficulty model and the
      per-frame [tick] of the simulation loop.

    JavaScript numbers are embedded as exact numbers: integer counters
    (score, runs, obstacle identifiers) as [Z], every other quantity as a
    rational [Q].  Rounding of IEEE doubles is outside the embedding.
    React state and refs become fields of explicit state records that each
    handler takes and returns. *)

From Stdlib Require Import String Ascii DecimalString DecimalPos DecimalNat.
From Stdlib Require Import QArith Qminmax Qround ZArith List Sorted Bool Lia Lqa.
Import ListNotations.

Open Scope Q_scope.

(** Strict comparison on rationals as a boolean, next to the library's
    [Qle_bool]. *)
Definition Qlt_bool (a b : Q) : bool := negb (Qle_bool b a).

Infix "<=?" := Qle_bool (at level 70, no associativity) : Q_scope.
Infix "<?" := Qlt_bool (at level 70, no associativity) : Q_scope.

(* ================================================================== *)
(** * GameShell: statistics and persistence (part_001)                  *)
(* ================================================================== *)

Module GameShell.

(** [type GamePhase = 'idle' | 'running' | 'paused' | 'over'] *)
Inductive GamePhase : Type := idle | running | paused | over.

(** [interface GameStats] *)
Record GameStats : Type := mkStats {
  score : Z;
  bestScore : Z;
  distance : Q;
  runs : Z
}.

(** [Partial<GameStats>]: a patch gives a value to some of the fields. *)
Record StatsPatch : Type := mkPatch {
  p_score : option Z;
  p_bestScore : option Z;
  p_distance : option Q;
  p_runs : option Z
}.

(** ** The host's durable key/value storage

    [window.localStorage] maps string keys to string values.  The host may
    have no [window] at all ([typeof window === 'undefined']). *)
Definition Storage : Type := string -> option string.

Definition getItem (k : string) (s : Storage) : option string := s k.

Definition setItem (k v : string) (s : Storage) : Storage :=
  fun k' => if String.eqb k k' then Some v else s k'.

Definition emptyStorage : Storage := fun _ => None.

Definition bestKey : string := "ufo-flappy-best".

(** ** [Number.parseInt] with no radix, after ECMA-262 (sec. parseInt)

    Leading white space is dropped, then an optional sign, then an optional
    [0x]/[0X] prefix that selects radix 16 (radix 10 otherwise); the value
    is that of the longest prefix of digits, and [NaN] ([None]) when that
    prefix is empty.  The result is the mathematical integer. *)
Definition isWhiteSpace (c : ascii) : bool :=
  let n := nat_of_ascii c in
  ((n =? 9) || (n =? 10) || (n =? 11) || (n =? 12) || (n =? 13)
   || (n =? 32) || (n =? 160))%nat.

Fixpoint trimStart (s : string) : string :=
  match s with
  | EmptyString => EmptyString
  | String c s' => if isWhiteSpace c then trimStart s' else s
  end.

Definition digitValue (c : ascii) : option Z :=
  let n := Z.of_nat (nat_of_ascii c) in
  if ((48 <=? n) && (n <=? 57))%Z then Some (n - 48)%Z
  else if ((97 <=? n) && (n <=? 122))%Z then Some (n - 87)%Z
  else if ((65 <=? n) && (n <=? 90))%Z then Some (n - 55)%Z
  else None.

(** Values of the longest prefix of [s] made of digits of the radix. *)
Fixpoint radixDigits (radix : Z) (s : string) : list Z :=
  match s with
  | EmptyString => []
  | String c s' =>
      match digitValue c with
      | Some d => if (d <? radix)%Z then d :: radixDigits radix s' else []
      | None => []
      end
  end.

Definition mathInt (radix : Z) (ds : list Z) : Z :=
  fold_left (fun acc d => (acc * radix + d)%Z) ds 0%Z.

Definition parseInt (input : string) : option Z :=
  let s := trimStart input in
  let '(sign, s) :=
    match s with
    | String "-" r => ((-1)%Z, r)
    | String "+" r => (1%Z, r)
    | _ => (1%Z, s)
    end in
  let '(radix, s) :=
    match s with
    | String "0" (String "x" r) => (16%Z, r)
    | String "0" (String "X" r) => (16%Z, r)
    | _ => (10%Z, s)
    end in
  match radixDigits radix s with
  | [] => None
  | ds => Some (sign * mathInt radix ds)%Z
  end.

(** [String(n)] on an integer, after Number::toString of ECMA-262 on the
    exact value: below 10^21 in magnitude the decimal numeral; from 10^21
    on the exponent form, the significant digits (trailing zeros dropped)
    with a point after the first one, then [e+] and the decimal exponent.
    Within the safe range, up to 2^53 - 1 in magnitude, where every integer
    is a double, this is the string the runtime gives. *)
Fixpoint dropLeadingZeros (l : list ascii) : list ascii :=
  match l with
  | "0"%char :: r => dropLeadingZeros r
  | _ => l
  end.

Definition significantDigits (digits : string) : string :=
  string_of_list_ascii
    (rev (dropLeadingZeros (rev (list_ascii_of_string digits)))).

Definition exponentForm (digits : string) : string :=
  let e := NilZero.string_of_uint (Nat.to_uint (String.length digits - 1)) in
  match significantDigits digits with
  | EmptyString => digits
  | String c EmptyString => String c ("e+" ++ e)
  | String c rest => String c ("." ++ rest ++ "e+" ++ e)
  end%string.

Definition String_of (n : Z) : string :=
  if (Z.abs n <? 10 ^ 21)%Z then NilZero.string_of_int (Z.to_int n)
  else
    match Z.to_int n with
    | Decimal.Pos d => exponentForm (NilZero.string_of_uint d)
    | Decimal.Neg d => String "-" (exponentForm (NilZero.string_of_uint d))
    end.

(** ** The component *)

Record Shell : Type := mkShell {
  phase : GamePhase;
  stats : GameStats;
  lastScore : Z;
  window : option Storage
}.

(** [createInitialStats]:
    [stored = window ? localStorage.getItem(key) : null],
    [best = stored ? Number.parseInt(stored) || 0 : 0].
    The empty string, [NaN] and [0] are falsy. *)
Definition createInitialStats (w : option Storage) : GameStats :=
  let stored :=
    match w with
    | Some ls => getItem bestKey ls
    | None => None
    end in
  let best :=
    match stored with
    | None => 0%Z
    | Some EmptyString => 0%Z
    | Some s =>
        match parseInt s with
        | Some n => if (n =? 0)%Z then 0%Z else n
        | None => 0%Z
        end
    end in
  {| score := 0; bestScore := best; distance := 0; runs := 0 |}.

(** [useState] initial values of the component. *)
Definition initialShell (w : option Storage) : Shell :=
  {| phase := idle; stats := createInitialStats w; lastScore := 0;
     window := w |}.

(** [{ ...prev, ...patch }] *)
Definition applyPatch (prev : GameStats) (patch : StatsPatch) : GameStats :=
  {| score := match p_score patch with Some v => v | None => score prev end;
     bestScore :=
       match p_bestScore patch with Some v => v | None => bestScore prev end;
     distance :=
       match p_distance patch with Some v => v | None => distance prev end;
     runs := match p_runs patch with Some v => v | None => runs prev end |}.

(** [updateStats]: merges the patch and, when the best score changed,
    stores it under the key. *)
Definition updateStats (patch : StatsPatch) (sh : Shell) : Shell :=
  let prev := stats sh in
  let next := applyPatch prev patch in
  let w' :=
    match window sh with
    | Some ls =>
        if negb (bestScore next =? bestScore prev)%Z
        then Some (setItem bestKey (String_of (bestScore next)) ls)
        else Some ls
    | None => None
    end in
  {| phase := phase sh; stats := next; lastScore := lastScore sh;
     window := w' |}.

Definition setPhase (p : GamePhase) (sh : Shell) : Shell :=
  {| phase := p; stats := stats sh; lastScore := lastScore sh;
     window := window sh |}.

Definition setLastScore (n : Z) (sh : Shell) : Shell :=
  {| phase := phase sh; stats := stats sh; lastScore := n;
     window := window sh |}.

(** [setStats(f)] called directly: the stats change, nothing else does. *)
Definition setStats (f : GameStats -> GameStats) (sh : Shell) : Shell :=
  {| phase := phase sh; stats := f (stats sh); lastScore := lastScore sh;
     window := window sh |}.

Definition handleStart (sh : Shell) : Shell :=
  let r := runs (stats sh) in
  updateStats
    {| p_score := Some 0%Z; p_bestScore := None; p_distance := Some 0;
       p_runs := Some (r + 1)%Z |}
    (setLastScore 0 (setPhase running sh)).

Definition handlePauseToggle (sh : Shell) : Shell :=
  setPhase
    (match phase sh with
     | running => paused
     | paused => running
     | p => p
     end) sh.

Definition handleGameOver (score0 : Z) (distance0 : Q) (sh : Shell) : Shell :=
  setStats
    (fun prev =>
       {| score := score0;
          distance := distance0;
          bestScore :=
            if (bestScore prev <? score0)%Z then score0 else bestScore prev;
          runs := runs prev |})
    (setLastScore score0 (setPhase over sh)).

Definition handleRestart (sh : Shell) : Shell :=
  updateStats
    {| p_score := Some 0%Z; p_bestScore := None; p_distance := Some 0;
       p_runs := None |}
    (setLastScore 0 (setPhase running sh)).

(** What the host can do to the shell: press a button, or the canvas
    reports the end of a run. *)
Inductive Action : Type :=
| Start
| PauseToggle
| Restart
| GameOver (score0 : Z) (distance0 : Q).

Definition act (a : Action) (sh : Shell) : Shell :=
  match a with
  | Start => handleStart sh
  | PauseToggle => handlePauseToggle sh
  | Restart => handleRestart sh
  | GameOver s d => handleGameOver s d sh
  end.

Definition run (acts : list Action) (sh : Shell) : Shell :=
  fold_left (fun s a => act a s) acts sh.

(** What the durable storage holds under the best-score key. *)
Definition persisted (sh : Shell) : option string :=
  match window sh with
  | Some ls => getItem bestKey ls
  | None => None
  end.

Definition GamePhase_eq_dec (p q : GamePhase) : {p = q} + {p <> q}.
Proof. decide equality. Defined.

(** ** Vocabulary of the statements *)

(** The best score after the actions [acts], from the best score [best]:
    the largest of [best] and the scores the runs ended with. *)
Definition bestAfter (acts : list Action) (best : Z) : Z :=
  fold_left
    (fun b a => match a with GameOver s _ => Z.max s b | _ => b end)
    acts best.

(** How many times the actions [acts] start a run from the launch button
    or the overlay. *)
Definition startsIn (acts : list Action) : Z :=
  Z.of_nat
    (length (filter (fun a => match a with Start => true | _ => false end)
               acts)).

(** The digits of a decimal numeral, most significant first. *)
Fixpoint digitsOf (d : Decimal.uint) : list Z :=
  match d with
  | Decimal.Nil => []
  | Decimal.D0 d => 0%Z :: digitsOf d
  | Decimal.D1 d => 1%Z :: digitsOf d
  | Decimal.D2 d => 2%Z :: digitsOf d
  | Decimal.D3 d => 3%Z :: digitsOf d
  | Decimal.D4 d => 4%Z :: digitsOf d
  | Decimal.D5 d => 5%Z :: digitsOf d
  | Decimal.D6 d => 6%Z :: digitsOf d
  | Decimal.D7 d => 7%Z :: digitsOf d
  | Decimal.D8 d => 8%Z :: digitsOf d
  | Decimal.D9 d => 9%Z :: digitsOf d
  end.

End GameShell.

(* ================================================================== *)
(** * GameCanvas: difficulty model and simulation loop (part_000)       *)
(* ================================================================== *)

Module GameCanvas.

Infix ">?" := (fun a b => Qlt_bool b a) (at level 70, no associativity) : Q_scope.
Infix ">=?" := (fun a b => Qle_bool b a) (at level 70, no associativity) : Q_scope.

(** [interface Obstacle] *)
Module Obstacle.
Record t : Type := mk {
  id : Z;
  x : Q;
  gapY : Q;
  gapHeight : Q;
  width : Q;
  passed : bool
}.
End Obstacle.
Abbreviation Obstacle := Obstacle.t.

(** [interface ParallaxLayer] *)
Module ParallaxLayer.
Record t : Type := mk {
  x : Q;
  speed : Q;
  size : Q;
  opacity : Q
}.
End ParallaxLayer.
Abbreviation ParallaxLayer := ParallaxLayer.t.

(** The rectangles [{ x, y, w, h }] of the collision test. *)
Module Rect.
Record t : Type := mk { x : Q; y : Q; w : Q; h : Q }.
End Rect.

Definition GRAVITY : Q := 1500.
Definition THRUST_ACCEL : Q := -2600.
Definition UFO_RADIUS : Q := 22.

Definition OBSTACLE_WIDTH : Q := 80.
Definition OBSTACLE_BASE_GAP : Q := 220.
Definition OBSTACLE_MIN_GAP : Q := 140.
Definition OBSTACLE_SPACING : Q := 260.

Definition BASE_SPEED : Q := 190.
Definition MAX_SPEED : Q := 370.
Definition MAX_FPS : Q := 1000 / 240.

Definition DIFFICULTY_MAX_DISTANCE : Q := 4500.

Definition COUNTDOWN_DURATION : Q := 3.

(** ** Difficulty model *)

Definition getDifficultyFactor (distance : Q) : Q :=
  if distance <=? 0 then 0
  else if distance >=? DIFFICULTY_MAX_DISTANCE then 1
  else distance / DIFFICULTY_MAX_DISTANCE.

Record Params : Type := mkParams { speed : Q; gap : Q }.

Definition getCurrentParams (distance : Q) : Params :=
  let t := getDifficultyFactor distance in
  let ease := t * t in
  {| speed := BASE_SPEED + (MAX_SPEED - BASE_SPEED) * ease;
     gap := OBSTACLE_BASE_GAP + (OBSTACLE_MIN_GAP - OBSTACLE_BASE_GAP) * ease |}.

(** ** Component state

    The [useState] cells and the [useRef] cells of the component.  [height]
    is the state the resize observer sets (440 at the design size); [rafRef]
    records whether a frame request is pending.  [randomCalls] counts the
    calls made to [Math.random] so far: call number [i] returns
    [Math_random i]. *)
Record Gen : Type := mkGen {
  obstacleIdRef : Z;
  randomCalls : nat
}.

Record Game : Type := mkGame {
  height : Q;
  ufoY : Q;
  velocity : Q;
  obstacles : list Obstacle;
  score : Z;
  distance : Q;
  parallax : list ParallaxLayer;
  isThrusting : bool;
  countdown : option Q;
  countdownStartRef : option Q;
  lastTimeRef : option Q;
  rafRef : bool;
  gen : Gen
}.

(** The position the scoring step compares trailing edges with, and the
    horizontal centre of the collision circle. *)
Definition scoreLine : Q := 960 / 2 - 30.
Definition ufoX : Q := 960 / 2 - 80.

Definition needed : Z := (Qceiling (960 / OBSTACLE_SPACING) + 3)%Z.

(** A host for evaluating frames on concrete inputs: every random draw is
    1/2, and [Math.pow(b, e)] is cut to its first-order value. *)
Definition halfRandom : nat -> Q := fun _ => 1 / 2.
Definition linearPow : Q -> Q -> Q := fun b e => 1 + (b - 1) * e.

(** A state in the middle of a run, for evaluating frames: seven obstacles
    260 apart from x = 345 on, gaps of 220 centred at mid height, the craft
    at mid height and at rest, the last frame at 5000 ms. *)
Definition corridor (i : Z) : Obstacle :=
  Obstacle.mk i (345 + inject_Z i * 260) 220 220 80 false.

Definition midRun : Game :=
  {| height := 440; ufoY := 220; velocity := 0;
     obstacles := map corridor [0; 1; 2; 3; 4; 5; 6]%Z;
     score := 0; distance := 0; parallax := []; isThrusting := false;
     countdown := None; countdownStartRef := Some 0;
     lastTimeRef := Some 5000; rafRef := true;
     gen := {| obstacleIdRef := 7; randomCalls := 7 |} |}.

(** [midRun] with the craft diving just above the floor. *)
Definition diving : Game :=
  {| height := 440; ufoY := 377; velocity := 300;
     obstacles := map corridor [0; 1; 2; 3; 4; 5; 6]%Z;
     score := 0; distance := 0; parallax := []; isThrusting := false;
     countdown := None; countdownStartRef := Some 0;
     lastTimeRef := Some 5000; rafRef := true;
     gen := {| obstacleIdRef := 7; randomCalls := 7 |} |}.

(** The same corridor two obstacles later: the first one has scrolled out
    on the left. *)
Definition lateCorridor : list Obstacle :=
  map corridor [-2; -1; 0; 1; 2; 3; 4]%Z.

Section Host.

(** The host runtime: the sequence of values [Math.random] returns and
    [Math.pow]. *)
Variable Math_random : nat -> Q.
Variable Math_pow : Q -> Q -> Q.

(** [spawnObstacle(minX, gapHeight)]; [Math.random] is called only when the
    usable height is positive. *)
Definition spawnObstacle (height minX gapHeight : Q) (g : Gen)
  : Obstacle * Gen :=
  let centerMargin := 80 in
  let usableHeight := height - 2 * centerMargin - gapHeight in
  let '(offset, calls) :=
    if usableHeight >? 0
    then (Math_random (randomCalls g) * usableHeight, S (randomCalls g))
    else (0, randomCalls g) in
  let center := centerMargin + offset in
  (Obstacle.mk (obstacleIdRef g) minX (center + gapHeight / 2) gapHeight
     OBSTACLE_WIDTH false,
   {| obstacleIdRef := (obstacleIdRef g + 1)%Z; randomCalls := calls |}).

(** [Math.max(...active.map(o => o.x)) + OBSTACLE_SPACING], or 480 when
    [active] is empty. *)
Definition nextSpawnX (active : list Obstacle) : Q :=
  match active with
  | [] => 480
  | o :: rest =>
      fold_left Qmax (map Obstacle.x rest) (Obstacle.x o) + OBSTACLE_SPACING
  end.

(** [while (active.length < needed) active.push(spawnObstacle(maxX, gap))].
    [fuel] bounds the number of iterations; [refill_count] shows that
    [needed] iterations let the loop leave through its condition. *)
Fixpoint refillLoop (fuel : nat) (height gap : Q) (active : list Obstacle)
  (g : Gen) : list Obstacle * Gen :=
  match fuel with
  | O => (active, g)
  | S fuel' =>
      if (Z.of_nat (length active) <? needed)%Z
      then
        let '(o, g') := spawnObstacle height (nextSpawnX active) gap g in
        refillLoop fuel' height gap (active ++ [o]) g'
      else (active, g)
  end.

(** The refill step of a frame: cull what scrolled out on the left, then
    spawn up to the lookahead count. *)
Definition refill (height gap : Q) (updatedObstacles : list Obstacle)
  (g : Gen) : list Obstacle * Gen :=
  let active :=
    filter (fun o => Obstacle.x o + Obstacle.width o >? -60)
      updatedObstacles in
  refillLoop (Z.to_nat needed) height gap active g.

(** [obstacles.map(o => ({ ...o, x: o.x - v * delta }))] *)
Definition moveObstacles (v delta : Q) (os : list Obstacle) : list Obstacle :=
  map (fun o =>
         Obstacle.mk (Obstacle.id o) (Obstacle.x o - v * delta)
           (Obstacle.gapY o) (Obstacle.gapHeight o) (Obstacle.width o)
           (Obstacle.passed o)) os.

(** The score update: [forEach] over the refilled list, marking and
    counting. *)
Fixpoint scoreUpdate (os : list Obstacle) (newScore : Z)
  : list Obstacle * Z :=
  match os with
  | [] => ([], newScore)
  | o :: rest =>
      if negb (Obstacle.passed o)
         && (Obstacle.x o + Obstacle.width o <? 960 / 2 - 30)
      then
        let '(rest', s') := scoreUpdate rest (newScore + 1)%Z in
        (Obstacle.mk (Obstacle.id o) (Obstacle.x o) (Obstacle.gapY o)
           (Obstacle.gapHeight o) (Obstacle.width o) true :: rest', s')
      else
        let '(rest', s') := scoreUpdate rest newScore in
        (o :: rest', s')
  end.

(** [parallax.map(s => ...)]: a layer that left the field re-enters on the
    right at a random offset. *)
Fixpoint updateParallax (factor delta : Q) (layers : list ParallaxLayer)
  (calls : nat) : list ParallaxLayer * nat :=
  match layers with
  | [] => ([], calls)
  | s :: rest =>
      let x0 := ParallaxLayer.x s - ParallaxLayer.speed s * factor * delta in
      let '(x1, calls1) :=
        if x0 <? -10 then (960 + Math_random calls * 120, S calls)
        else (x0, calls) in
      let '(rest', calls2) := updateParallax factor delta rest calls1 in
      (ParallaxLayer.mk x1 (ParallaxLayer.speed s) (ParallaxLayer.size s)
         (ParallaxLayer.opacity s) :: rest', calls2)
  end.

(** ** Physics and collision *)

(** The floor and ceiling clamp on [nextY], with the hit flag. *)
Definition clampBounds (height nextY : Q) : Q * bool :=
  let floor := height - 40 in
  let ceiling := 40 in
  let '(nextY, hit) :=
    if nextY + UFO_RADIUS >=? floor then (floor - UFO_RADIUS, true)
    else (nextY, false) in
  if nextY - UFO_RADIUS <=? ceiling then (ceiling + UFO_RADIUS, true)
  else (nextY, hit).

Definition obstacleRects (height : Q) (o : Obstacle) : list Rect.t :=
  let topHeight := Obstacle.gapY o - Obstacle.gapHeight o / 2 in
  let bottomY := Obstacle.gapY o + Obstacle.gapHeight o / 2 in
  [ Rect.mk (Obstacle.x o) 0 (Obstacle.width o) topHeight;
    Rect.mk (Obstacle.x o) bottomY (Obstacle.width o) (height - bottomY) ].

Definition circleHitsRect (cx cy : Q) (r : Rect.t) : bool :=
  let closestX := Qmax (Rect.x r) (Qmin cx (Rect.x r + Rect.w r)) in
  let closestY := Qmax (Rect.y r) (Qmin cy (Rect.y r + Rect.h r)) in
  let dx := cx - closestX in
  let dy := cy - closestY in
  dx * dx + dy * dy <? UFO_RADIUS * UFO_RADIUS.

(** The two nested [for] loops with [break]: some rectangle of some obstacle
    is hit. *)
Definition collides (height nextY : Q) (os : list Obstacle) : bool :=
  existsb (fun o => existsb (circleHitsRect ufoX nextY) (obstacleRects height o))
    os.

(** ** The frame callback *)

(** A frame of the countdown: slow scroll at the warm-up speed, refill with
    the distance-0 gap, ease the craft towards the vertical centre. *)
Definition countdownFrame (st : Game) (timestamp delta cstart remaining : Q)
  : Game :=
  let warmupSpeed := 80 in
  let newDistance := distance st + warmupSpeed * delta in
  let moved := moveObstacles warmupSpeed delta (obstacles st) in
  let '(updatedObstacles, g1) :=
    refill (height st) (gap (getCurrentParams 0)) moved (gen st) in
  let centerY := height st / 2 in
  let interp := 1 - Math_pow 0.25 delta in
  let floatedY := ufoY st + (centerY - ufoY st) * interp in
  let '(updatedParallax, calls2) :=
    updateParallax 0.25 delta (parallax st) (randomCalls g1) in
  {| height := height st;
     ufoY := floatedY;
     velocity := velocity st;
     obstacles := updatedObstacles;
     score := score st;
     distance := newDistance;
     parallax := updatedParallax;
     isThrusting := isThrusting st;
     countdown := Some remaining;
     countdownStartRef := Some cstart;
     lastTimeRef := Some timestamp;
     rafRef := true;
     gen := {| obstacleIdRef := obstacleIdRef g1; randomCalls := calls2 |} |}.

(** A frame of active play.  The second component is the call
    [onGameOver(newScore, newDistance)], when the frame makes it. *)
Definition activeFrame (st : Game) (timestamp delta : Q)
  (cstartRef : option Q) : Game * option (Z * Q) :=
  let p := getCurrentParams (distance st) in
  let accel := GRAVITY + (if isThrusting st then THRUST_ACCEL else 0) in
  let nextVelocity := (velocity st + accel * delta) * 0.995 in
  let '(nextY, boundHit) :=
    clampBounds (height st) (ufoY st + nextVelocity * delta) in
  let moved := moveObstacles (speed p) delta (obstacles st) in
  let '(active, g1) := refill (height st) (gap p) moved (gen st) in
  let '(updatedObstacles, newScore) := scoreUpdate active (score st) in
  let newDistance := distance st + speed p * delta in
  let hit :=
    if negb boundHit then collides (height st) nextY updatedObstacles
    else true in
  let '(updatedParallax, calls2) :=
    updateParallax (0.5 + 0.5 * getDifficultyFactor newDistance) delta
      (parallax st) (randomCalls g1) in
  let g2 := {| obstacleIdRef := obstacleIdRef g1; randomCalls := calls2 |} in
  if hit then
    ({| height := height st;
        ufoY := nextY;
        velocity := 0;
        obstacles := updatedObstacles;
        score := newScore;
        distance := newDistance;
        parallax := updatedParallax;
        isThrusting := isThrusting st;
        countdown := countdown st;
        countdownStartRef := cstartRef;
        lastTimeRef := None;
        rafRef := false;
        gen := g2 |},
     Some (newScore, newDistance))
  else
    ({| height := height st;
        ufoY := nextY;
        velocity := nextVelocity;
        obstacles := updatedObstacles;
        score := newScore;
        distance := newDistance;
        parallax := updatedParallax;
        isThrusting := isThrusting st;
        countdown := None;
        countdownStartRef := cstartRef;
        lastTimeRef := Some timestamp;
        rafRef := true;
        gen := g2 |},
     None).

Definition requestFrame (st : Game) (last : option Q) : Game :=
  {| height := height st; ufoY := ufoY st; velocity := velocity st;
     obstacles := obstacles st; score := score st; distance := distance st;
     parallax := parallax st; isThrusting := isThrusting st;
     countdown := countdown st; countdownStartRef := countdownStartRef st;
     lastTimeRef := last; rafRef := true; gen := gen st |}.

(** [tick(timestamp)], the callback of [requestAnimationFrame]. *)
Definition tick (st : Game) (timestamp : Q) : Game * option (Z * Q) :=
  match lastTimeRef st with
  | None => (requestFrame st (Some timestamp), None)
  | Some last =>
      let delta := (timestamp - last) / 1000 in
      if delta <=? 0 then (requestFrame st (Some last), None)
      else
        let delta :=
          if timestamp - last >? MAX_FPS then Qmin delta (1 / 30)
          else delta in
        match countdown st with
        | Some _ =>
            let cstart :=
              match countdownStartRef st with
              | None => timestamp
              | Some c => c
              end in
            let elapsed := (timestamp - cstart) / 1000 in
            let remaining := COUNTDOWN_DURATION - elapsed in
            if remaining <=? 0
            then activeFrame st timestamp delta (Some cstart)
            else (countdownFrame st timestamp delta cstart remaining, None)
        | None => activeFrame st timestamp delta (countdownStartRef st)
        end
  end.

(** [resetGame], run when the shell enters the running phase: the craft at
    mid height, [ceil(960 / spacing) + 2] obstacles from x = 480 on, and the
    countdown armed. *)
Definition resetGame (st : Game) : Game :=
  let midY := height st / 2 in
  let visibleCount := (Qceiling (960 / OBSTACLE_SPACING) + 2)%Z in
  let '(initial, g1) :=
    fold_left
      (fun (acc : list Obstacle * Gen) (i : nat) =>
         let '(o, g') :=
           spawnObstacle (height st)
             (480 + inject_Z (Z.of_nat i) * OBSTACLE_SPACING)
             (gap (getCurrentParams 0)) (snd acc) in
         (fst acc ++ [o], g'))
      (seq 0 (Z.to_nat visibleCount)) ([], gen st) in
  {| height := height st;
     ufoY := midY;
     velocity := 0;
     obstacles := initial;
     score := 0;
     distance := 0;
     parallax := parallax st;
     isThrusting := isThrusting st;
     countdown := Some COUNTDOWN_DURATION;
     countdownStartRef := None;
     lastTimeRef := None;
     rafRef := rafRef st;
     gen := g1 |}.

(** The component as first rendered: the [useState]/[useRef] initial
    values. *)
Definition initialGame : Game :=
  {| height := 440; ufoY := 220; velocity := 0; obstacles := []; score := 0;
     distance := 0; parallax := []; isThrusting := false; countdown := None;
     countdownStartRef := None; lastTimeRef := None; rafRef := false;
     gen := {| obstacleIdRef := 0; randomCalls := 0 |} |}.

(** [setIsThrusting(v)], what the input hooks call. *)
Definition setIsThrusting (v : bool) (st : Game) : Game :=
  {| height := height st; ufoY := ufoY st; velocity := velocity st;
     obstacles := obstacles st; score := score st; distance := distance st;
     parallax := parallax st; isThrusting := v;
     countdown := countdown st; countdownStartRef := countdownStartRef st;
     lastTimeRef := lastTimeRef st; rafRef := rafRef st; gen := gen st |}.

(** ** Phase changes

    The effect that answers a change of the [phase] prop, then the effect
    of the main loop, which React runs after it.  Entering the running
    phase resets the game, from whatever phase; the other phases stop
    thrust and the loop. *)
Definition phaseEffect (phase : GameShell.GamePhase) (st : Game) : Game :=
  match phase with
  | GameShell.running => setIsThrusting false (resetGame st)
  | _ =>
      {| height := height st; ufoY := ufoY st; velocity := velocity st;
         obstacles := obstacles st; score := score st;
         distance := distance st; parallax := parallax st;
         isThrusting := false; countdown := None;
         countdownStartRef := None; lastTimeRef := None; rafRef := false;
         gen := gen st |}
  end.

Definition loopEffect (phase : GameShell.GamePhase) (st : Game) : Game :=
  match phase with
  | GameShell.running => requestFrame st (lastTimeRef st)
  | _ =>
      {| height := height st; ufoY := ufoY st; velocity := velocity st;
         obstacles := obstacles st; score := score st;
         distance := distance st; parallax := parallax st;
         isThrusting := isThrusting st; countdown := countdown st;
         countdownStartRef := countdownStartRef st; lastTimeRef := None;
         rafRef := false; gen := gen st |}
  end.

Definition onPhase (phase : GameShell.GamePhase) (st : Game) : Game :=
  loopEffect phase (phaseEffect phase st).

(** ** Resize

    [resize] of the resize observer, from the width of the container: the
    values it passes to [setWidth] and [setHeight].  The [width] state only
    scales the rendering; [height] is the field of [Game]. *)
Definition resize (rectWidth : Q) : Q * Q :=
  let targetWidth := Qmax 320 (Qmin rectWidth 960) in
  let ratio := 960 / 440 in
  let targetHeight := targetWidth / ratio in
  (targetWidth, targetHeight).

Definition setHeight (h : Q) (st : Game) : Game :=
  {| height := h; ufoY := ufoY st; velocity := velocity st;
     obstacles := obstacles st; score := score st; distance := distance st;
     parallax := parallax st; isThrusting := isThrusting st;
     countdown := countdown st; countdownStartRef := countdownStartRef st;
     lastTimeRef := lastTimeRef st; rafRef := rafRef st; gen := gen st |}.

(** [scale = Math.min(width / 960, height / 440)] of the render. *)
Definition renderScale (width0 height0 : Q) : Q :=
  Qmin (width0 / 960) (height0 / 440).

(** ** Input hooks

    [useHoldInput] keeps a local [mouseDown], [useKeyboardThrust] a local
    [keyActive]; both call [setIsThrusting].  [inputCall] gives the new
    locals and the call an event makes, if it makes one. *)
Record Hooks : Type := mkHooks {
  mouseDown : bool;
  keyActive : bool
}.

Inductive InputEvent : Type :=
| MouseDown
| MouseUp
| MouseLeave
| TouchStart
| TouchEnd
| KeyDown (code : string)
| KeyUp (code : string).

Definition isThrustKey (code : string) : bool :=
  String.eqb code "Space" || String.eqb code "ArrowUp".

Definition startThrust (h : Hooks) : Hooks * option bool :=
  ({| mouseDown := true; keyActive := keyActive h |}, Some true).

Definition stopThrust (h : Hooks) : Hooks * option bool :=
  ({| mouseDown := false; keyActive := keyActive h |}, Some false).

Definition inputCall (e : InputEvent) (h : Hooks) : Hooks * option bool :=
  match e with
  | MouseDown => startThrust h
  | MouseUp => if mouseDown h then stopThrust h else (h, None)
  | MouseLeave => if mouseDown h then stopThrust h else (h, None)
  | TouchStart => startThrust h
  | TouchEnd => stopThrust h
  | KeyDown code =>
      if negb (isThrustKey code) then (h, None)
      else if negb (keyActive h)
           then ({| mouseDown := mouseDown h; keyActive := true |}, Some true)
           else (h, None)
  | KeyUp code =>
      if negb (isThrustKey code) then (h, None)
      else if keyActive h
           then ({| mouseDown := mouseDown h; keyActive := false |},
                 Some false)
           else (h, None)
  end.

Definition handleInput (e : InputEvent) (hs : Hooks * Game) : Hooks * Game :=
  let '(h', call) := inputCall e (fst hs) in
  (h', match call with
       | Some v => setIsThrusting v (snd hs)
       | None => snd hs
       end).

(** The calls to [setIsThrusting] a sequence of events makes, in order. *)
Fixpoint inputCalls (events : list InputEvent) (h : Hooks) : list bool :=
  match events with
  | [] => []
  | e :: rest =>
      let '(h', call) := inputCall e h in
      match call with
      | Some v => v :: inputCalls rest h'
      | None => inputCalls rest h'
      end
  end.

(** ** Vocabulary of the statements *)

(** The elapsed time a frame integrates: seconds since the last frame, cut
    to 1/30 s. *)
Definition frameDelta (last timestamp : Q) : Q :=
  if timestamp - last >? MAX_FPS
  then Qmin ((timestamp - last) / 1000) (1 / 30)
  else (timestamp - last) / 1000.

(** The countdown time left at [timestamp], as the frame computes it. *)
Definition remainingAt (st : Game) (timestamp : Q) : Q :=
  let cstart :=
    match countdownStartRef st with
    | None => timestamp
    | Some c => c
    end in
  COUNTDOWN_DURATION - (timestamp - cstart) / 1000.

(** The two modes of the running phase. *)
Definition inCountdown (st : Game) (timestamp : Q) : Prop :=
  countdown st <> None /\ 0 < remainingAt st timestamp.

Definition inActivePlay (st : Game) (timestamp : Q) : Prop :=
  countdown st = None \/ remainingAt st timestamp <= 0.

(** The physics integrator in the words of section 4.3 of the
    specification: [step(position, velocity, dt, thrusting, bounds)] gives
    the new position, the new velocity and the bound-hit flag. *)
Definition DAMPING : Q := 0.995.

Definition physicsStep (position velocity0 dt : Q) (thrusting : bool)
  (floorY ceilingY : Q) : Q * Q * bool :=
  let acceleration := GRAVITY + (if thrusting then THRUST_ACCEL else 0) in
  let velocity' := (velocity0 + acceleration * dt) * DAMPING in
  let position' := position + velocity' * dt in
  let '(position', hitBound) :=
    if Qle_bool floorY (position' + UFO_RADIUS)
    then (floorY - UFO_RADIUS, true) else (position', false) in
  let '(position', hitBound) :=
    if Qle_bool (position' - UFO_RADIUS) ceilingY
    then (ceilingY + UFO_RADIUS, true) else (position', hitBound) in
  (position', velocity', hitBound).

(** The position the craft would take in a frame before any clamp. *)
Definition intendedY (st : Game) (dt : Q) : Q :=
  let accel := GRAVITY + (if isThrusting st then THRUST_ACCEL else 0) in
  ufoY st + (velocity st + accel * dt) * 0.995 * dt.

(** The obstacles a frame of active play scores: moved at the current speed,
    then refilled. *)
Definition refilledAt (st : Game) (dt : Q) : list Obstacle :=
  let p := getCurrentParams (distance st) in
  fst (refill (height st) (gap p) (moveObstacles (speed p) dt (obstacles st))
         (gen st)).

(** [o'] is [o] after the score update against the line [line]: marked as
    passed when it already was or when its trailing edge is left of the
    line, and otherwise the same. *)
Definition markedAt (line : Q) (o o' : Obstacle) : Prop :=
  Obstacle.id o' = Obstacle.id o
  /\ Obstacle.x o' = Obstacle.x o
  /\ Obstacle.gapY o' = Obstacle.gapY o
  /\ Obstacle.gapHeight o' = Obstacle.gapHeight o
  /\ Obstacle.width o' = Obstacle.width o
  /\ (Obstacle.passed o' = true <->
      Obstacle.passed o = true \/ Obstacle.x o + Obstacle.width o < line).

(** The obstacles of [os] that the score update flips from not passed to
    passed against the line [line]. *)
Definition newlyPassed (line : Q) (os : list Obstacle) : list Obstacle :=
  filter (fun o => negb (Obstacle.passed o)
                   && (Obstacle.x o + Obstacle.width o <? line)) os.

(** A frame scores against the line [line]: every obstacle of the refilled
    list is committed marked against that line, and the score grows by one
    for each obstacle the frame flips. *)
Definition scoresAgainst (line : Q) (st : Game) (last timestamp : Q)
  : Prop :=
  let st' := fst (tick st timestamp) in
  let refilled := refilledAt st (frameDelta last timestamp) in
  Forall2 (markedAt line) refilled (obstacles st')
  /\ score st' = (score st + Z.of_nat (length (newlyPassed line refilled)))%Z.

(** An obstacle that is kept and has the standard width. *)
Definition inWindow (o : Obstacle) : Prop :=
  Obstacle.width o == OBSTACLE_WIDTH
  /\ -60 < Obstacle.x o + Obstacle.width o.


(** Every obstacle has the width [spawnObstacle] gives, the only place
    obstacles are made. *)
Definition widthsOk (os : list Obstacle) : Prop :=
  Forall (fun o => Obstacle.width o == OBSTACLE_WIDTH) os.

(** [m] is the largest horizontal position among [os]. *)
Definition isMaxX (os : list Obstacle) (m : Q) : Prop :=
  (exists e, In e os /\ Obstacle.x e == m)
  /\ Forall (fun e => Obstacle.x e <= m) os.

(** Where the refill step must place an obstacle spawned when [existing]
    are the active ones: at their largest x plus the spacing, or at the
    starting offset when none remain. *)
Definition placedAfter (existing : list Obstacle) (o : Obstacle) : Prop :=
  (existing = [] /\ Obstacle.x o == 480)
  \/ (exists m, isMaxX existing m /\ Obstacle.x o == m + OBSTACLE_SPACING).

(** [a] comes before [b] in the pipeline: it was spawned earlier and lies
    at least one spacing to the left. *)
Definition before (a b : Obstacle) : Prop :=
  (Obstacle.id a < Obstacle.id b)%Z
  /\ Obstacle.x a + OBSTACLE_SPACING <= Obstacle.x b.

(** The obstacles are in spawn order, one spacing apart or more, and the
    identifier counter is beyond all of them. *)
Definition pipelineOrdered (os : list Obstacle) (g : Gen) : Prop :=
  StronglySorted before os
  /\ Forall (fun o => (Obstacle.id o < obstacleIdRef g)%Z) os.

(** The circle at height [cy] cannot touch obstacle [o]: it is beside the
    obstacle, or inside its gap. *)
Definition clearOf (cy : Q) (o : Obstacle) : Prop :=
  ufoX + UFO_RADIUS <= Obstacle.x o
  \/ (0 <= Obstacle.width o
      /\ Obstacle.x o + Obstacle.width o <= ufoX - UFO_RADIUS)
  \/ (UFO_RADIUS <= cy
      /\ Obstacle.gapY o - Obstacle.gapHeight o / 2 + UFO_RADIUS <= cy
      /\ cy <= Obstacle.gapY o + Obstacle.gapHeight o / 2 - UFO_RADIUS).

(** The centre of the circle at height [cy] is inside a pillar of [o]. *)
Definition insidePillar (fieldHeight cy : Q) (o : Obstacle) : Prop :=
  Obstacle.x o <= ufoX <= Obstacle.x o + Obstacle.width o
  /\ ((0 <= cy <= Obstacle.gapY o - Obstacle.gapHeight o / 2)
      \/ (Obstacle.gapY o + Obstacle.gapHeight o / 2 <= cy <= fieldHeight)).

(** [l] is [b], [negb b], [b], ... *)
Fixpoint alternating (b : bool) (l : list bool) : Prop :=
  match l with
  | [] => True
  | c :: rest => c = b /\ alternating (negb b) rest
  end.

Definition keyboardEvent (e : InputEvent) : Prop :=
  match e with
  | KeyDown _ | KeyUp _ => True
  | _ => False
  end.

(** Thrust is on only while some input is held. *)
Definition thrustHeld (hs : Hooks * Game) : Prop :=
  isThrusting (snd hs) = true ->
  mouseDown (fst hs) = true \/ keyActive (fst hs) = true.

(** [o] is the obstacle number [i] of a fresh run, with identifier
    [ident]: at 480 plus [i] spacings, not passed, of the standard width and
    with the base gap. *)
Definition initialAt (i : nat) (ident : Z) (o : Obstacle) : Prop :=
  Obstacle.x o = 480 + inject_Z (Z.of_nat i) * OBSTACLE_SPACING
  /\ Obstacle.id o = ident
  /\ Obstacle.passed o = false
  /\ Obstacle.width o = OBSTACLE_WIDTH
  /\ Obstacle.gapHeight o == OBSTACLE_BASE_GAP.

(** What can happen to the mounted canvas: an input event, a frame
    callback, or a change of the phase prop. *)
Inductive CanvasAction : Type :=
| Input (e : InputEvent)
| Frame (timestamp : Q)
| Phase (p : GameShell.GamePhase).

Definition canvasStep (a : CanvasAction) (hs : Hooks * Game) : Hooks * Game :=
  match a with
  | Input e => handleInput e hs
  | Frame timestamp => (fst hs, fst (tick (snd hs) timestamp))
  | Phase p => (fst hs, onPhase p (snd hs))
  end.

Definition canvasRun (acts : list CanvasAction) (hs : Hooks * Game)
  : Hooks * Game :=
  fold_left (fun s a => canvasStep a s) acts hs.

Definition mounted : Hooks * Game :=
  ({| mouseDown := false; keyActive := false |}, initialGame).

(** What every state of the mounted canvas satisfies. *)
Definition canvasInv (hs : Hooks * Game) : Prop :=
  thrustHeld hs
  /\ widthsOk (obstacles (snd hs))
  /\ pipelineOrdered (obstacles (snd hs)) (gen (snd hs)).



(* ================================================================== *)
(** * Properties of the canvas                                          *)
(* ================================================================== *)

(** ** Comparisons *)

Lemma Qle_bool_true (a b : Q) : (a <=? b) = true -> a <= b.
Proof. apply Qle_bool_iff. Qed.

Lemma Qle_bool_false (a b : Q) : (a <=? b) = false -> b < a.
Proof.
  intros H. apply Qnot_le_lt. intros Hle.
  apply Qle_bool_iff in Hle. congruence.
Qed.

Lemma Qlt_bool_true (a b : Q) : (a <? b) = true -> a < b.
Proof.
  unfold Qlt_bool. intros H. apply negb_true_iff in H.
  now apply Qle_bool_false.
Qed.

Lemma Qlt_bool_false (a b : Q) : (a <? b) = false -> b <= a.
Proof.
  unfold Qlt_bool. intros H. apply negb_false_iff in H.
  now apply Qle_bool_true.
Qed.

(** Splits on every rational comparison under an [if] of the goal, leaving
    the order fact in the context. *)
Ltac qcase :=
  match goal with
  | |- context [Qle_bool ?a ?b] =>
      let E := fresh "E" in
      destruct (Qle_bool a b) eqn:E;
      [apply Qle_bool_true in E | apply Qle_bool_false in E]
  | |- context [Qlt_bool ?a ?b] =>
      let E := fresh "E" in
      destruct (Qlt_bool a b) eqn:E;
      [apply Qlt_bool_true in E | apply Qlt_bool_false in E]
  end.

(** ** Difficulty model *)

Lemma getDifficultyFactor_range (d : Q) :
  0 <= getDifficultyFactor d <= 1.
Proof.
  unfold getDifficultyFactor, DIFFICULTY_MAX_DISTANCE.
  repeat qcase; try (split; lra).
  split.
  - apply Qle_shift_div_l; lra.
  - apply Qle_shift_div_r; lra.
Qed.

Lemma getDifficultyFactor_mono (d1 d2 : Q) :
  d1 <= d2 -> getDifficultyFactor d1 <= getDifficultyFactor d2.
Proof.
  intros H. unfold getDifficultyFactor, DIFFICULTY_MAX_DISTANCE.
  repeat qcase; try lra.
  - apply Qle_shift_div_l; lra.
  - apply Qle_shift_div_r; lra.
  - unfold Qdiv. apply Qmult_le_compat_r; [exact H | discriminate].
Qed.

Lemma getDifficultyFactor_compat (d d' : Q) :
  d == d' -> getDifficultyFactor d == getDifficultyFactor d'.
Proof.
  intros H. unfold getDifficultyFactor.
  rewrite (Qleb_comp d d' H 0 0 (Qeq_refl 0)).
  rewrite (Qleb_comp _ _ (Qeq_refl DIFFICULTY_MAX_DISTANCE) d d' H).
  repeat qcase; try reflexivity.
  now rewrite H.
Qed.

(** C5.  Between 0 and [DIFFICULTY_MAX_DISTANCE] the ramp is monotone: a
    larger distance gives a speed at least as high and a gap at most as
    tall; and [getCurrentParams] is a function of the value of its argument
    alone (equal distances give equal parameters). *)
Theorem getCurrentParams_monotone (d1 d2 : Q)
  (Hlo : 0 <= d1) (Hlt : d1 < d2) (Hhi : d2 <= DIFFICULTY_MAX_DISTANCE) :
  speed (getCurrentParams d1) <= speed (getCurrentParams d2)
  /\ gap (getCurrentParams d2) <= gap (getCurrentParams d1)
  /\ (forall d d' : Q, d == d' ->
        speed (getCurrentParams d) == speed (getCurrentParams d')
        /\ gap (getCurrentParams d) == gap (getCurrentParams d')).
Proof.
  assert (Ht : getDifficultyFactor d1 <= getDifficultyFactor d2)
    by (apply getDifficultyFactor_mono; lra).
  pose proof (getDifficultyFactor_range d1) as [H1 _].
  unfold getCurrentParams; cbn [speed gap].
  unfold BASE_SPEED, MAX_SPEED, OBSTACLE_BASE_GAP, OBSTACLE_MIN_GAP.
  set (t1 := getDifficultyFactor d1) in *.
  set (t2 := getDifficultyFactor d2) in *.
  split; [nra | split; [nra |]].
  intros d d' Hd. apply getDifficultyFactor_compat in Hd.
  split; rewrite Hd; reflexivity.
Qed.

(** ** The obstacle pipeline *)

Lemma spawnObstacle_fields (height minX gapHeight : Q) (g : Gen) :
  let o := fst (spawnObstacle height minX gapHeight g) in
  let g' := snd (spawnObstacle height minX gapHeight g) in
  Obstacle.id o = obstacleIdRef g
  /\ Obstacle.x o = minX
  /\ Obstacle.gapHeight o = gapHeight
  /\ Obstacle.width o = OBSTACLE_WIDTH
  /\ Obstacle.passed o = false
  /\ obstacleIdRef g' = (obstacleIdRef g + 1)%Z.
Proof.
  unfold spawnObstacle.
  destruct (Qlt_bool 0 (height - 2 * 80 - gapHeight)); cbn; auto 10.
Qed.

Lemma fold_left_Qmax_ge (l : list Q) (a : Q) :
  a <= fold_left Qmax l a /\ Forall (fun b => b <= fold_left Qmax l a) l.
Proof.
  revert a. induction l as [|b l IH]; intros a; cbn.
  - split; [lra | constructor].
  - destruct (IH (Qmax a b)) as [H1 H2].
    pose proof (Q.le_max_l a b). pose proof (Q.le_max_r a b).
    split; [lra | constructor; [lra | exact H2]].
Qed.

Lemma fold_left_Qmax_in (l : list Q) (a : Q) :
  exists b, In b (a :: l) /\ b == fold_left Qmax l a.
Proof.
  revert a. induction l as [|b l IH]; intros a; cbn.
  - exists a. split; [now left | reflexivity].
  - destruct (IH (Qmax a b)) as [c [[Hc | Hc] Hcq]].
    + destruct (Q.max_dec a b) as [E | E].
      * exists a. split; [now left |]. rewrite <- Hcq, <- Hc. now symmetry.
      * exists b. split; [right; now left |].
        rewrite <- Hcq, <- Hc. now symmetry.
    + exists c. split; [right; now right | exact Hcq].
Qed.

(** [nextSpawnX] computes the placement the pipeline is meant to use. *)
Lemma nextSpawnX_placed (existing : list Obstacle) (o : Obstacle) :
  Obstacle.x o = nextSpawnX existing -> placedAfter existing o.
Proof.
  intros Hx. destruct existing as [|e rest].
  - left. split; [reflexivity |]. rewrite Hx. reflexivity.
  - right. cbn [nextSpawnX] in Hx.
    exists (fold_left Qmax (map Obstacle.x rest) (Obstacle.x e)).
    split; [| rewrite Hx; reflexivity].
    destruct (fold_left_Qmax_ge (map Obstacle.x rest) (Obstacle.x e))
      as [Hhd Htl].
    destruct (fold_left_Qmax_in (map Obstacle.x rest) (Obstacle.x e))
      as [b [Hin Hb]].
    split.
    + destruct Hin as [Hin | Hin].
      * exists e. split; [now left | subst b; exact Hb].
      * apply in_map_iff in Hin. destruct Hin as [e' [He' Hin]].
        exists e'. split; [now right | subst b; exact Hb].
    + constructor; [exact Hhd |].
      rewrite Forall_forall in Htl |- *. intros e' He'.
      apply Htl. now apply in_map.
Qed.

Lemma nextSpawnX_inWindow (active : list Obstacle) :
  Forall inWindow active -> -60 < nextSpawnX active + OBSTACLE_WIDTH.
Proof.
  intros H. destruct active as [|e rest]; cbn [nextSpawnX].
  - unfold OBSTACLE_WIDTH. lra.
  - inversion H as [|? ? [Hw Hx] _]; subst.
    destruct (fold_left_Qmax_ge (map Obstacle.x rest) (Obstacle.x e))
      as [Hhd _].
    unfold OBSTACLE_WIDTH, OBSTACLE_SPACING in *. lra.
Qed.

Lemma refillLoop_spec (fuel : nat) (height gap : Q) :
  forall (active : list Obstacle) (g : Gen),
  exists spawned,
    fst (refillLoop fuel height gap active g) = active ++ spawned
    /\ obstacleIdRef (snd (refillLoop fuel height gap active g))
       = (obstacleIdRef g + Z.of_nat (length spawned))%Z
    /\ (forall i o, nth_error spawned i = Some o ->
          Obstacle.x o = nextSpawnX (active ++ firstn i spawned)
          /\ Obstacle.passed o = false
          /\ Obstacle.id o = (obstacleIdRef g + Z.of_nat i)%Z)
    /\ ((needed - Z.of_nat (length active) <= Z.of_nat fuel)%Z ->
        (needed <= Z.of_nat (length (active ++ spawned)))%Z)
    /\ (Forall inWindow active -> Forall inWindow (active ++ spawned)).
Proof.
  induction fuel as [|fuel IH]; intros active g.
  - exists []. cbn [refillLoop fst snd length]. rewrite app_nil_r.
    split; [reflexivity |]. split; [lia |]. split; [| split; [lia | auto]].
    intros [|i] o Hnth; discriminate.
  - cbn [refillLoop].
    destruct (Z.of_nat (length active) <? needed)%Z eqn:Hlen.
    + pose proof (spawnObstacle_fields height (nextSpawnX active) gap g)
        as Hsp.
      destruct (spawnObstacle height (nextSpawnX active) gap g) as [o g1].
      cbn [fst snd] in Hsp.
      destruct Hsp as (Hid & Hx & _ & Hw & Hp & Hg1).
      destruct (IH (active ++ [o]) g1) as (sp & Hres & Hids & Hnth & Hcnt & Hwin).
      exists (o :: sp).
      replace (active ++ o :: sp) with ((active ++ [o]) ++ sp)
        by (rewrite <- app_assoc; reflexivity).
      split; [exact Hres |].
      split; [rewrite Hids, Hg1; cbn [length]; lia |].
      split; [| split].
      * intros i o' Hi. destruct i as [|i].
        -- cbn in Hi. injection Hi as <-. cbn [firstn].
           rewrite app_nil_r. repeat split; auto. lia.
        -- cbn in Hi. destruct (Hnth i o' Hi) as (Hx' & Hp' & Hid').
           cbn [firstn].
           replace (active ++ o :: firstn i sp)
             with ((active ++ [o]) ++ firstn i sp)
             by (rewrite <- app_assoc; reflexivity).
           repeat split; auto. rewrite Hid', Hg1. lia.
      * intros Hf. apply Hcnt. rewrite length_app. cbn [length]. lia.
      * intros Hact. apply Hwin. apply Forall_app. split; [exact Hact |].
        constructor; [| constructor].
        split; [rewrite Hw; reflexivity |].
        rewrite Hx, Hw. now apply nextSpawnX_inWindow.
    + exists []. cbn [fst snd length]. rewrite app_nil_r.
      apply Z.ltb_ge in Hlen.
      split; [reflexivity |]. split; [lia |]. split; [| split; [lia | auto]].
      intros [|i] o Hnth; discriminate.
Qed.

(** C6.  After the refill step the active list holds at least
    [ceil(960 / 260) + 3] obstacles, every one of them has
    [x + width >= -60], and the list is the kept obstacles followed by the
    spawned ones, each spawned one placed at the largest x of the obstacles
    before it plus the spacing (at 480 when there are none), not passed, and
    carrying the next identifier in sequence. *)
Theorem refill_pipeline (height gap : Q) (os : list Obstacle) (g : Gen)
  (Hw : widthsOk os) :
  let kept :=
    filter (fun o => Obstacle.x o + Obstacle.width o >? -60) os in
  let active := fst (refill height gap os g) in
  let g' := snd (refill height gap os g) in
  (Qceiling (960 / 260) + 3 <= Z.of_nat (length active))%Z
  /\ Forall (fun o => Obstacle.x o + Obstacle.width o >= -60) active
  /\ exists spawned,
       active = kept ++ spawned
       /\ obstacleIdRef g' = (obstacleIdRef g + Z.of_nat (length spawned))%Z
       /\ forall i o, nth_error spawned i = Some o ->
            placedAfter (kept ++ firstn i spawned) o
            /\ Obstacle.passed o = false
            /\ Obstacle.id o = (obstacleIdRef g + Z.of_nat i)%Z.
Proof.
  intros kept active g'. subst active g'. unfold refill. fold kept.
  destruct (refillLoop_spec (Z.to_nat needed) height gap kept g)
    as (sp & Hres & Hids & Hnth & Hcnt & Hwin).
  assert (Hkept : Forall inWindow kept).
  { apply Forall_forall. intros o Ho. unfold kept in Ho.
    apply filter_In in Ho. destruct Ho as [Ho Hb].
    apply Qlt_bool_true in Hb.
    unfold widthsOk in Hw. rewrite Forall_forall in Hw.
    split; [now apply Hw | exact Hb]. }
  rewrite Hres. split; [| split].
  - apply Hcnt. rewrite Z2Nat.id by (vm_compute; discriminate). lia.
  - specialize (Hwin Hkept). rewrite Forall_forall in Hwin |- *.
    intros o Ho. destruct (Hwin o Ho) as [_ Hx]. lra.
  - exists sp. split; [reflexivity |]. split; [exact Hids |].
    intros i o Hi. destruct (Hnth i o Hi) as (Hx & Hp & Hid).
    split; [now apply nextSpawnX_placed | now split].
Qed.

(** C4, amended.  [spawnObstacle] draws the top edge of the gap,
    [gapY - gapHeight / 2]: with a positive usable range it is
    [80 + r * usable] for the random draw [r] of [0, 1), hence within
    [80, height - 80 - gapHeight), and the gap ends at most 80 above the
    bottom; with a non-positive usable range the top edge is at the margin
    80.  The centre [gapY] is half a gap height below that edge. *)
Theorem spawnObstacle_gap_placement (height minX gapHeight : Q) (g : Gen)
  (Hr : 0 <= Math_random (randomCalls g) < 1) :
  let o := fst (spawnObstacle height minX gapHeight g) in
  let usable := height - 2 * 80 - gapHeight in
  let top := Obstacle.gapY o - Obstacle.gapHeight o / 2 in
  (0 < usable ->
     top == 80 + Math_random (randomCalls g) * usable
     /\ 80 <= top < height - 80 - gapHeight
     /\ top + Obstacle.gapHeight o < height - 80)
  /\ (usable <= 0 -> top == 80)
  /\ Obstacle.gapY o == top + gapHeight / 2.
Proof.
  unfold spawnObstacle. cbv beta.
  destruct (Qlt_bool 0 (height - 2 * 80 - gapHeight)) eqn:E;
    [apply Qlt_bool_true in E | apply Qlt_bool_false in E];
    cbn [fst Obstacle.gapY Obstacle.gapHeight].
  - set (r := Math_random (randomCalls g)) in *.
    set (u := height - 2 * 80 - gapHeight) in *.
    assert (Hu : gapHeight == height - 2 * 80 - u) by (unfold u; ring).
    split; [intros _ | split; [intros H; lra |]].
    + split; [field |]. split; [split |].
      * assert (0 <= r * u) by nra. lra.
      * assert (r * u < u) by nra. lra.
      * assert (r * u < u) by nra. lra.
    + field.
  - split; [intros H; lra | split; [intros _ |]]; field.
Qed.

(** ** Frames *)

Lemma tick_first_frame (st : Game) (timestamp : Q) :
  lastTimeRef st = None ->
  tick st timestamp = (requestFrame st (Some timestamp), None).
Proof. intros H. unfold tick. now rewrite H. Qed.

Lemma tick_degenerate (st : Game) (timestamp last : Q) :
  lastTimeRef st = Some last ->
  (timestamp - last) / 1000 <= 0 ->
  tick st timestamp = (requestFrame st (Some last), None).
Proof.
  intros H Hd. unfold tick. rewrite H.
  apply Qle_bool_iff in Hd. now rewrite Hd.
Qed.

Lemma elapsed_positive (timestamp last : Q) :
  last < timestamp -> ((timestamp - last) / 1000 <=? 0) = false.
Proof.
  intros H. destruct (Qle_bool ((timestamp - last) / 1000) 0) eqn:E;
    [| reflexivity].
  apply Qle_bool_true in E.
  assert (0 < (timestamp - last) / 1000)
    by (apply Qlt_shift_div_l; lra).
  lra.
Qed.

(** In the countdown the frame is [countdownFrame]. *)
Lemma tick_countdown (st : Game) (timestamp last : Q) :
  lastTimeRef st = Some last -> last < timestamp ->
  inCountdown st timestamp ->
  exists cstart,
    tick st timestamp =
    (countdownFrame st timestamp (frameDelta last timestamp) cstart
       (remainingAt st timestamp), None).
Proof.
  intros Hl Hlt [Hc Hrem]. unfold tick. rewrite Hl.
  rewrite (elapsed_positive _ _ Hlt).
  destruct (countdown st) as [c|]; [| congruence].
  unfold remainingAt in Hrem. fold (frameDelta last timestamp).
  destruct (Qle_bool _ 0) eqn:E in |- *.
  - apply Qle_bool_true in E. lra.
  - eexists. reflexivity.
Qed.

(** In active play the frame is [activeFrame]. *)
Lemma tick_active (st : Game) (timestamp last : Q) :
  lastTimeRef st = Some last -> last < timestamp ->
  inActivePlay st timestamp ->
  exists cref,
    tick st timestamp =
    activeFrame st timestamp (frameDelta last timestamp) cref.
Proof.
  intros Hl Hlt Hact. unfold tick. rewrite Hl.
  rewrite (elapsed_positive _ _ Hlt). fold (frameDelta last timestamp).
  destruct (countdown st) as [c|] eqn:Hc.
  - destruct Hact as [Hact | Hact]; [congruence |].
    unfold remainingAt in Hact. apply Qle_bool_iff in Hact.
    rewrite Hact. eexists. reflexivity.
  - eexists. reflexivity.
Qed.

(** What a frame of active play commits, field by field. *)
Lemma activeFrame_fields (st : Game) (timestamp dt : Q) (cref : option Q) :
  let p := getCurrentParams (distance st) in
  let cb := clampBounds (height st) (intendedY st dt) in
  let su := scoreUpdate (refilledAt st dt) (score st) in
  let hit :=
    if negb (snd cb) then collides (height st) (fst cb) (fst su) else true in
  let r := activeFrame st timestamp dt cref in
  ufoY (fst r) = fst cb
  /\ obstacles (fst r) = fst su
  /\ score (fst r) = snd su
  /\ distance (fst r) = distance st + speed p * dt
  /\ velocity (fst r) =
       (if hit then 0
        else (velocity st
              + (GRAVITY + (if isThrusting st then THRUST_ACCEL else 0)) * dt)
             * 0.995)
  /\ snd r =
       (if hit then Some (snd su, distance st + speed p * dt) else None).
Proof.
  unfold activeFrame, refilledAt, intendedY. cbv zeta.
  destruct (clampBounds _ _) as [nextY bh].
  destruct (refill _ _ _ _) as [active g1].
  destruct (scoreUpdate _ _) as [updated newScore].
  destruct (updateParallax _ _ _ _) as [para calls].
  cbn [fst snd].
  destruct (if negb bh then collides (height st) nextY updated else true);
    cbn [fst snd ufoY obstacles score distance velocity]; auto 10.
Qed.

Lemma clampBounds_no_hit (height nextY : Q) :
  snd (clampBounds height nextY) = false ->
  fst (clampBounds height nextY) = nextY.
Proof.
  unfold clampBounds. cbv beta.
  destruct (Qle_bool (height - 40) (nextY + UFO_RADIUS)).
  - destruct (Qle_bool (height - 40 - UFO_RADIUS - UFO_RADIUS) 40);
      cbn; discriminate.
  - destruct (Qle_bool (nextY - UFO_RADIUS) 40); cbn;
      [discriminate | reflexivity].
Qed.

Lemma scoreUpdate_spec (os : list Obstacle) :
  forall s : Z,
    Forall2 (markedAt scoreLine) os (fst (scoreUpdate os s))
    /\ snd (scoreUpdate os s)
       = (s + Z.of_nat (length (newlyPassed scoreLine os)))%Z.
Proof.
  induction os as [|o rest IH]; intros s.
  - cbn. split; [constructor | lia].
  - cbn [scoreUpdate newlyPassed filter]. fold (newlyPassed scoreLine rest).
    change (960 / 2 - 30) with scoreLine.
    destruct (negb (Obstacle.passed o)
              && (Obstacle.x o + Obstacle.width o <? scoreLine)) eqn:E.
    + destruct (IH (s + 1)%Z) as [Hm Hs].
      destruct (scoreUpdate rest (s + 1)) as [rest' s'].
      cbn [fst snd] in *. split.
      * constructor; [| exact Hm].
        unfold markedAt. cbn. repeat split; auto.
        intros _. right. apply andb_true_iff in E.
        now apply Qlt_bool_true.
      * cbn [length]. lia.
    + destruct (IH s) as [Hm Hs].
      destruct (scoreUpdate rest s) as [rest' s'].
      cbn [fst snd] in *. split; [| exact Hs].
      constructor; [| exact Hm].
      unfold markedAt. repeat split; auto.
      intros [H | H]; [exact H |].
      destruct (Obstacle.passed o); [reflexivity |].
      cbn in E. destruct (Qlt_bool _ _) eqn:E' in E; [discriminate |].
      apply Qlt_bool_false in E'. lra.
Qed.

(** C2, amended.  In every frame of active play each obstacle of the
    refilled list is committed marked against the score line
    [960 / 2 - 30 = 450]: it is passed afterwards exactly when it was passed
    before or its trailing edge [x + width] is left of 450, and the score
    grows by one per obstacle flipped.  The line lies 50 to the right of the
    centre of the collision circle ([960 / 2 - 80 = 400]). *)
Theorem tick_scoring (st : Game) (timestamp last : Q)
  (Hl : lastTimeRef st = Some last) (Hlt : last < timestamp)
  (Hact : inActivePlay st timestamp) :
  scoresAgainst scoreLine st last timestamp
  /\ scoreLine == ufoX + 50.
Proof.
  split; [| vm_compute; reflexivity].
  unfold scoresAgainst.
  destruct (tick_active st timestamp last Hl Hlt Hact) as [cref ->].
  destruct (activeFrame_fields st timestamp (frameDelta last timestamp) cref)
    as (_ & Hobs & Hscore & _).
  rewrite Hobs, Hscore. apply scoreUpdate_spec.
Qed.

(** C9.  In every frame of active play the committed position, velocity and
    bound hit are those of the integrator of the specification at the
    frame's [dt], with the floor at [height - 40] and the ceiling at 40:
    the position is the clamped one, a set hit flag ends the run, and a
    frame that does not end the run commits the damped velocity. *)
Theorem tick_physics (st : Game) (timestamp last : Q)
  (Hl : lastTimeRef st = Some last) (Hlt : last < timestamp)
  (Hact : inActivePlay st timestamp) :
  let ps :=
    physicsStep (ufoY st) (velocity st) (frameDelta last timestamp)
      (isThrusting st) (height st - 40) 40 in
  let st' := fst (tick st timestamp) in
  ufoY st' = fst (fst ps)
  /\ (snd ps = true -> snd (tick st timestamp) <> None)
  /\ (snd (tick st timestamp) = None -> velocity st' = snd (fst ps)).
Proof.
  cbv zeta.
  destruct (tick_active st timestamp last Hl Hlt Hact) as [cref ->].
  destruct (activeFrame_fields st timestamp (frameDelta last timestamp) cref)
    as (Hy & _ & _ & _ & Hv & Hev).
  rewrite Hy, Hv, Hev. clear Hy Hv Hev.
  unfold physicsStep, clampBounds, intendedY, DAMPING. cbv beta zeta.
  set (v' := (velocity st + _ * _) * 0.995).
  destruct (Qle_bool (height st - 40) (ufoY st + v' * _ + UFO_RADIUS)).
  - destruct (Qle_bool (height st - 40 - UFO_RADIUS - UFO_RADIUS) 40);
      cbn; (split; [reflexivity | split; [discriminate | discriminate]]).
  - destruct (Qle_bool (ufoY st + v' * _ - UFO_RADIUS) 40); cbn.
    + split; [reflexivity | split; discriminate].
    + split; [reflexivity |]. split; [discriminate |].
      destruct (collides _ _ _); [discriminate | reflexivity].
Qed.

(** C7.  A frame whose elapsed time is zero or negative changes nothing:
    position, velocity, score, distance, obstacles and countdown are those
    of before, as are the background, the identifier counter and the time
    of the last frame, and no game over is reported. *)
Theorem tick_degenerate_dt_noop (st : Game) (timestamp last : Q)
  (Hl : lastTimeRef st = Some last)
  (Hdt : (timestamp - last) / 1000 <= 0) :
  let st' := fst (tick st timestamp) in
  ufoY st' = ufoY st
  /\ velocity st' = velocity st
  /\ score st' = score st
  /\ distance st' = distance st
  /\ obstacles st' = obstacles st
  /\ countdown st' = countdown st
  /\ parallax st' = parallax st
  /\ gen st' = gen st
  /\ lastTimeRef st' = lastTimeRef st
  /\ snd (tick st timestamp) = None.
Proof.
  cbv zeta. rewrite (tick_degenerate st timestamp last Hl Hdt).
  cbn. rewrite Hl. auto 12.
Qed.

Lemma countdownFrame_thrust (b : bool) (st : Game)
  (timestamp dt cstart remaining : Q) :
  countdownFrame (setIsThrusting b st) timestamp dt cstart remaining
  = setIsThrusting b (countdownFrame st timestamp dt cstart remaining).
Proof.
  unfold countdownFrame. cbn [setIsThrusting height ufoY velocity obstacles
    score distance parallax isThrusting countdown countdownStartRef
    lastTimeRef rafRef gen].
  destruct (refill _ _ _ _) as [os g1].
  destruct (updateParallax _ _ _ _) as [para calls].
  reflexivity.
Qed.

(** C8.  While the countdown runs (a countdown is set and the time left at
    the frame is positive) a frame never reports game over, whatever the
    position of the craft and of the obstacles; velocity and score are left
    alone, and the thrust input has no effect on the frame. *)
Theorem tick_countdown_no_game_over (st : Game) (timestamp : Q)
  (Hcd : inCountdown st timestamp) :
  snd (tick st timestamp) = None
  /\ velocity (fst (tick st timestamp)) = velocity st
  /\ score (fst (tick st timestamp)) = score st
  /\ forall b : bool,
       tick (setIsThrusting b st) timestamp
       = (setIsThrusting b (fst (tick st timestamp)), None).
Proof.
  destruct Hcd as [Hc Hrem]. unfold remainingAt in Hrem.
  unfold tick.
  cbn [setIsThrusting lastTimeRef countdown countdownStartRef].
  destruct (lastTimeRef st) as [last|]; [| cbn; auto].
  destruct (Qle_bool ((timestamp - last) / 1000) 0); [cbn; auto |].
  destruct (countdown st) as [c|]; [| congruence].
  destruct (Qle_bool _ 0) eqn:E.
  - apply Qle_bool_true in E. lra.
  - cbn [fst snd]. split; [reflexivity |].
    split; [| split].
    + unfold countdownFrame.
      destruct (refill _ _ _ _) as [os g1].
      destruct (updateParallax _ _ _ _) as [para calls]. reflexivity.
    + unfold countdownFrame.
      destruct (refill _ _ _ _) as [os g1].
      destruct (updateParallax _ _ _ _) as [para calls]. reflexivity.
    + intros b. now rewrite countdownFrame_thrust.
Qed.

(** ** The width invariant along a run

    [widthsOk], assumed by the pipeline statement, holds of every state of a
    run: [resetGame] establishes it and every frame keeps it, together with
    the pipeline bounds. *)

Lemma moveObstacles_widthsOk (v dt : Q) (os : list Obstacle) :
  widthsOk os -> widthsOk (moveObstacles v dt os).
Proof.
  unfold widthsOk, moveObstacles. intros H.
  apply Forall_map. eapply Forall_impl; [| exact H]. now cbn.
Qed.

Lemma refill_inWindow (height gap : Q) (os : list Obstacle) (g : Gen) :
  widthsOk os ->
  Forall inWindow (fst (refill height gap os g))
  /\ (needed <= Z.of_nat (length (fst (refill height gap os g))))%Z.
Proof.
  intros Hw. unfold refill.
  set (kept := filter _ os).
  destruct (refillLoop_spec (Z.to_nat needed) height gap kept g)
    as (sp & Hres & _ & _ & Hcnt & Hwin).
  rewrite Hres. split.
  - apply Hwin. apply Forall_forall. intros o Ho.
    apply filter_In in Ho. destruct Ho as [Ho Hb].
    apply Qlt_bool_true in Hb.
    unfold widthsOk in Hw. rewrite Forall_forall in Hw.
    split; [now apply Hw | exact Hb].
  - apply Hcnt. rewrite Z2Nat.id by (vm_compute; discriminate). lia.
Qed.

Lemma markedAt_inWindow (line : Q) (os os' : list Obstacle) :
  Forall2 (markedAt line) os os' ->
  Forall inWindow os ->
  Forall inWindow os' /\ length os' = length os.
Proof.
  induction 1 as [|o o' os os' Hm _ IH]; intros Hin.
  - split; [constructor | reflexivity].
  - inversion Hin as [|? ? [Hw Hx] Hrest]; subst.
    destruct (IH Hrest) as [IH1 IH2].
    destruct Hm as (_ & Hx' & _ & _ & Hw' & _).
    split; [| cbn; now rewrite IH2].
    constructor; [| exact IH1].
    unfold inWindow. rewrite Hx', Hw'. now split.
Qed.

(** After a frame that integrates time, in the countdown as in active play,
    the committed obstacles are at least [needed], none has its trailing
    edge at or left of -60, and all have the standard width. *)
Lemma tick_pipeline (st : Game) (timestamp last : Q) :
  lastTimeRef st = Some last -> last < timestamp ->
  widthsOk (obstacles st) ->
  let os' := obstacles (fst (tick st timestamp)) in
  Forall inWindow os' /\ (needed <= Z.of_nat (length os'))%Z.
Proof.
  intros Hl Hlt Hw. cbv zeta.
  destruct (Qlt_le_dec 0 (remainingAt st timestamp)) as [Hrem | Hrem].
  - destruct (countdown st) as [c|] eqn:Hc.
    + assert (Hcd : inCountdown st timestamp)
        by (split; [congruence | exact Hrem]).
      destruct (tick_countdown st timestamp last Hl Hlt Hcd) as [cs ->].
      cbn [fst]. unfold countdownFrame.
      pose proof (refill_inWindow (height st) (gap (getCurrentParams 0))
                    (moveObstacles 80 (frameDelta last timestamp)
                       (obstacles st)) (gen st)
                    (moveObstacles_widthsOk _ _ _ Hw)) as Hre.
      destruct (refill _ _ _ _) as [os g1].
      destruct (updateParallax _ _ _ _) as [para calls].
      exact Hre.
    + destruct (tick_active st timestamp last Hl Hlt (or_introl Hc))
        as [cref ->].
      destruct (activeFrame_fields st timestamp (frameDelta last timestamp)
                  cref) as (_ & -> & _).
      destruct (scoreUpdate_spec (refilledAt st (frameDelta last timestamp))
                  (score st)) as [Hm _].
      destruct (refill_inWindow (height st)
                  (gap (getCurrentParams (distance st)))
                  (moveObstacles (speed (getCurrentParams (distance st)))
                     (frameDelta last timestamp) (obstacles st)) (gen st)
                  (moveObstacles_widthsOk _ _ _ Hw)) as [H1 H2].
      destruct (markedAt_inWindow _ _ _ Hm H1) as [H3 H4].
      split; [exact H3 |]. rewrite H4. exact H2.
  - destruct (tick_active st timestamp last Hl Hlt (or_intror Hrem))
      as [cref ->].
    destruct (activeFrame_fields st timestamp (frameDelta last timestamp)
                cref) as (_ & -> & _).
    destruct (scoreUpdate_spec (refilledAt st (frameDelta last timestamp))
                (score st)) as [Hm _].
    destruct (refill_inWindow (height st)
                (gap (getCurrentParams (distance st)))
                (moveObstacles (speed (getCurrentParams (distance st)))
                   (frameDelta last timestamp) (obstacles st)) (gen st)
                (moveObstacles_widthsOk _ _ _ Hw)) as [H1 H2].
    destruct (markedAt_inWindow _ _ _ Hm H1) as [H3 H4].
    split; [exact H3 |]. rewrite H4. exact H2.
Qed.

Lemma resetGame_widthsOk (st : Game) : widthsOk (obstacles (resetGame st)).
Proof.
  unfold resetGame. cbv zeta.
  set (step := fun (acc : list Obstacle * Gen) (i : nat) => _).
  assert (Hfold : forall (l : list nat) (acc : list Obstacle * Gen),
             widthsOk (fst acc) -> widthsOk (fst (fold_left step l acc))).
  { induction l as [|i l IH]; intros acc Hacc; [exact Hacc |].
    cbn [fold_left]. apply IH. unfold step at 1.
    pose proof (spawnObstacle_fields (height st)
                  (480 + inject_Z (Z.of_nat i) * OBSTACLE_SPACING)
                  (gap (getCurrentParams 0)) (snd acc)) as Hsp.
    destruct (spawnObstacle _ _ _ _) as [o g']. cbn [fst snd] in *.
    destruct Hsp as (_ & _ & _ & Hw & _).
    apply Forall_app. split; [exact Hacc |].
    constructor; [rewrite Hw; reflexivity | constructor]. }
  specialize (Hfold (seq 0 (Z.to_nat (Qceiling (960 / OBSTACLE_SPACING) + 2)))
                ([], gen st) (Forall_nil _)).
  destruct (fold_left step _ _) as [initial g1]. exact Hfold.
Qed.

(* ================================================================== *)
(** * Further properties of the canvas                                  *)
(* ================================================================== *)

Lemma Qle_bool_intro (a b : Q) : a <= b -> (a <=? b) = true.
Proof. apply Qle_bool_iff. Qed.

Lemma Qlt_bool_intro (a b : Q) : a < b -> (a <? b) = true.
Proof.
  intros H. destruct (Qlt_bool a b) eqn:E; [reflexivity |].
  apply Qlt_bool_false in E. lra.
Qed.

Lemma Qlt_bool_elim_false (a b : Q) : b <= a -> (a <? b) = false.
Proof.
  intros H. destruct (Qlt_bool a b) eqn:E; [| reflexivity].
  apply Qlt_bool_true in E. lra.
Qed.

Lemma Qdiv_1000 (a : Q) : a / 1000 == a * (1 # 1000).
Proof. reflexivity. Qed.

Lemma Qdiv_2 (a : Q) : a / 2 == a * (1 # 2).
Proof. reflexivity. Qed.

(** ** Difficulty *)

Lemma getDifficultyFactor_low (d : Q) :
  d <= 0 -> getDifficultyFactor d = 0.
Proof.
  intros H. unfold getDifficultyFactor. now rewrite (Qle_bool_intro _ _ H).
Qed.

Lemma getDifficultyFactor_high (d : Q) :
  DIFFICULTY_MAX_DISTANCE <= d -> getDifficultyFactor d = 1.
Proof.
  intros H. unfold getDifficultyFactor.
  destruct (Qle_bool d 0) eqn:E.
  - apply Qle_bool_true in E. unfold DIFFICULTY_MAX_DISTANCE in H. lra.
  - now rewrite (Qle_bool_intro _ _ H).
Qed.

Lemma getCurrentParams_bounds (d : Q) :
  (BASE_SPEED <= speed (getCurrentParams d) <= MAX_SPEED)
  /\ (OBSTACLE_MIN_GAP <= gap (getCurrentParams d) <= OBSTACLE_BASE_GAP).
Proof.
  pose proof (getDifficultyFactor_range d) as [H0 H1].
  unfold getCurrentParams; cbn [speed gap].
  unfold BASE_SPEED, MAX_SPEED, OBSTACLE_BASE_GAP, OBSTACLE_MIN_GAP.
  set (t := getDifficultyFactor d) in *. repeat split; nra.
Qed.

(** Whatever the distance, the speed stays between [BASE_SPEED] and
    [MAX_SPEED] and the gap between [OBSTACLE_MIN_GAP] and
    [OBSTACLE_BASE_GAP]; at or below distance 0 the parameters are the base
    ones, and from [DIFFICULTY_MAX_DISTANCE] on they are the hardest ones. *)
Theorem getCurrentParams_range (d : Q) :
  (BASE_SPEED <= speed (getCurrentParams d) <= MAX_SPEED)
  /\ (OBSTACLE_MIN_GAP <= gap (getCurrentParams d) <= OBSTACLE_BASE_GAP)
  /\ (d <= 0 ->
      speed (getCurrentParams d) == BASE_SPEED
      /\ gap (getCurrentParams d) == OBSTACLE_BASE_GAP)
  /\ (DIFFICULTY_MAX_DISTANCE <= d ->
      speed (getCurrentParams d) == MAX_SPEED
      /\ gap (getCurrentParams d) == OBSTACLE_MIN_GAP).
Proof.
  destruct (getCurrentParams_bounds d) as [Hs Hg].
  split; [exact Hs |]. split; [exact Hg |].
  unfold getCurrentParams; cbn [speed gap]. split.
  - intros H. rewrite (getDifficultyFactor_low d H).
    split; vm_compute; reflexivity.
  - intros H. rewrite (getDifficultyFactor_high d H).
    split; vm_compute; reflexivity.
Qed.

(** ** The shape of a frame *)

Lemma frameDelta_bounds (last timestamp : Q) :
  last < timestamp ->
  0 < frameDelta last timestamp <= 1 # 30.
Proof.
  intros H. unfold frameDelta, MAX_FPS.
  assert (E30 : 1 / 30 == 1 # 30) by reflexivity.
  assert (E240 : 1000 / 240 == 25 # 6) by reflexivity.
  pose proof (Qdiv_1000 (timestamp - last)) as Ed.
  destruct (Qlt_bool (1000 / 240) (timestamp - last)) eqn:E;
    [apply Qlt_bool_true in E | apply Qlt_bool_false in E].
  - destruct (Q.min_spec ((timestamp - last) / 1000) (1 / 30))
      as [[Hc Hm] | [Hc Hm]]; rewrite Hm; split; lra.
  - split; lra.
Qed.

(** The four ways through [tick]. *)
Lemma tick_cases (st : Game) (timestamp : Q) :
  (lastTimeRef st = None
   /\ tick st timestamp = (requestFrame st (Some timestamp), None))
  \/ (exists last,
        lastTimeRef st = Some last /\ timestamp <= last
        /\ tick st timestamp = (requestFrame st (Some last), None))
  \/ (exists last cstart,
        lastTimeRef st = Some last /\ last < timestamp
        /\ inCountdown st timestamp
        /\ tick st timestamp =
           (countdownFrame st timestamp (frameDelta last timestamp) cstart
              (remainingAt st timestamp), None))
  \/ (exists last cref,
        lastTimeRef st = Some last /\ last < timestamp
        /\ inActivePlay st timestamp
        /\ tick st timestamp =
           activeFrame st timestamp (frameDelta last timestamp) cref).
Proof.
  destruct (lastTimeRef st) as [last|] eqn:Hl.
  - right. destruct (Qlt_le_dec last timestamp) as [Hlt | Hge].
    + right.
      destruct (Qlt_le_dec 0 (remainingAt st timestamp)) as [Hrem | Hrem].
      * destruct (countdown st) as [c|] eqn:Hc.
        -- left.
           assert (Hcd : inCountdown st timestamp)
             by (split; [congruence | exact Hrem]).
           destruct (tick_countdown st timestamp last Hl Hlt Hcd) as [cs E].
           exists last, cs. auto.
        -- right.
           destruct (tick_active st timestamp last Hl Hlt (or_introl Hc))
             as [cref E].
           exists last, cref. split; [reflexivity |].
           split; [exact Hlt |]. split; [now left | exact E].
      * right.
        destruct (tick_active st timestamp last Hl Hlt (or_intror Hrem))
          as [cref E].
        exists last, cref. split; [reflexivity |].
        split; [exact Hlt |]. split; [now right | exact E].
    + left. exists last. split; [reflexivity |]. split; [exact Hge |].
      apply tick_degenerate; [exact Hl |].
      rewrite Qdiv_1000. lra.
  - left. split; [reflexivity |]. now apply tick_first_frame.
Qed.

(** What a frame of the countdown commits, field by field. *)
Lemma countdownFrame_fields (st : Game)
  (timestamp dt cstart remaining : Q) :
  let r := countdownFrame st timestamp dt cstart remaining in
  ufoY r = ufoY st + (height st / 2 - ufoY st) * (1 - Math_pow 0.25 dt)
  /\ velocity r = velocity st
  /\ score r = score st
  /\ distance r = distance st + 80 * dt
  /\ obstacles r =
       fst (refill (height st) (gap (getCurrentParams 0))
              (moveObstacles 80 dt (obstacles st)) (gen st))
  /\ obstacleIdRef (gen r) =
       obstacleIdRef
         (snd (refill (height st) (gap (getCurrentParams 0))
                 (moveObstacles 80 dt (obstacles st)) (gen st)))
  /\ countdown r = Some remaining
  /\ countdownStartRef r = Some cstart
  /\ lastTimeRef r = Some timestamp
  /\ rafRef r = true
  /\ isThrusting r = isThrusting st
  /\ height r = height st.
Proof.
  unfold countdownFrame. cbv zeta.
  destruct (refill _ _ _ _) as [os g1].
  destruct (updateParallax _ _ _ _) as [para calls].
  cbn. auto 15.
Qed.

(** The rest of what a frame of active play commits. *)
Lemma activeFrame_refs (st : Game) (timestamp dt : Q) (cref : option Q) :
  let r := activeFrame st timestamp dt cref in
  let p := getCurrentParams (distance st) in
  height (fst r) = height st
  /\ isThrusting (fst r) = isThrusting st
  /\ obstacleIdRef (gen (fst r)) =
       obstacleIdRef
         (snd (refill (height st) (gap p)
                 (moveObstacles (speed p) dt (obstacles st)) (gen st)))
  /\ (snd r = None ->
      lastTimeRef (fst r) = Some timestamp /\ rafRef (fst r) = true
      /\ countdown (fst r) = None)
  /\ (snd r <> None ->
      lastTimeRef (fst r) = None /\ rafRef (fst r) = false).
Proof.
  unfold activeFrame. cbv zeta.
  destruct (clampBounds _ _) as [nextY bh].
  destruct (refill _ _ _ _) as [active g1].
  destruct (scoreUpdate _ _) as [updated newScore].
  destruct (updateParallax _ _ _ _) as [para calls].
  destruct (if negb bh then collides (height st) nextY updated else true);
    cbn; (split; [reflexivity |]); (split; [reflexivity |]);
    (split; [reflexivity |]); split; intros Hev;
    try discriminate; auto; now contradiction Hev.
Qed.

(** One pattern for the four ways through [tick]. *)
Ltac tick_split st timestamp :=
  let last := fresh "last" in
  let Hl := fresh "Hl" in
  let Hlt := fresh "Hlt" in
  let E := fresh "E" in
  destruct (tick_cases st timestamp)
    as [[Hl E] | [(last & Hl & Hlt & E)
       | [(last & ? & Hl & Hlt & ? & E) | (last & ? & Hl & Hlt & ? & E)]]];
  rewrite E; clear E; cbn [fst snd].

(** ** Distance and score along a run *)

(** In any frame the distance never decreases, and it grows by at most
    [MAX_SPEED / 30]: the elapsed time a frame integrates is cut to 1/30 s
    and the speed never exceeds [MAX_SPEED]. *)
Theorem tick_distance (st : Game) (timestamp : Q) :
  distance st <= distance (fst (tick st timestamp))
  /\ distance (fst (tick st timestamp))
     <= distance st + MAX_SPEED * (1 # 30).
Proof.
  tick_split st timestamp.
  - cbn. unfold MAX_SPEED. split; lra.
  - cbn. unfold MAX_SPEED. split; lra.
  - destruct (countdownFrame_fields st timestamp
                (frameDelta last timestamp) x (remainingAt st timestamp))
      as (_ & _ & _ & -> & _).
    pose proof (frameDelta_bounds last timestamp Hlt) as [H0 H1].
    unfold MAX_SPEED. split; lra.
  - destruct (activeFrame_fields st timestamp (frameDelta last timestamp) x)
      as (_ & _ & _ & -> & _).
    pose proof (frameDelta_bounds last timestamp Hlt) as [H0 H1].
    destruct (getCurrentParams_bounds (distance st)) as ([Hs0 Hs1] & _).
    unfold BASE_SPEED, MAX_SPEED in *.
    set (v := speed (getCurrentParams (distance st))) in *.
    set (dt := frameDelta last timestamp) in *.
    split; nra.
Qed.

(** In any frame the score never decreases, and it grows by at most the
    number of obstacles the frame commits. *)
Theorem tick_score (st : Game) (timestamp : Q) :
  (score st <= score (fst (tick st timestamp)))%Z
  /\ (score (fst (tick st timestamp))
      <= score st + Z.of_nat (length (obstacles (fst (tick st timestamp)))))%Z.
Proof.
  tick_split st timestamp.
  - cbn. lia.
  - cbn. lia.
  - destruct (countdownFrame_fields st timestamp
                (frameDelta last timestamp) x (remainingAt st timestamp))
      as (_ & _ & -> & _).
    lia.
  - destruct (activeFrame_fields st timestamp (frameDelta last timestamp) x)
      as (_ & -> & -> & _).
    destruct (scoreUpdate_spec (refilledAt st (frameDelta last timestamp))
                (score st)) as [Hm ->].
    apply Forall2_length in Hm. rewrite <- Hm.
    pose proof (filter_length_le
                  (fun o => negb (Obstacle.passed o)
                            && (Obstacle.x o + Obstacle.width o <? scoreLine))
                  (refilledAt st (frameDelta last timestamp))) as Hle.
    unfold newlyPassed. lia.
Qed.

(** ** The craft and the bounds *)

Lemma clampBounds_range (height nextY : Q) :
  124 <= height ->
  40 + UFO_RADIUS <= fst (clampBounds height nextY)
  /\ fst (clampBounds height nextY) <= height - 40 - UFO_RADIUS.
Proof.
  intros Hh. unfold clampBounds, UFO_RADIUS. cbv beta.
  destruct (Qle_bool (height - 40) (nextY + 22)) eqn:E1;
    [apply Qle_bool_true in E1 | apply Qle_bool_false in E1].
  - destruct (Qle_bool (height - 40 - 22 - 22) 40) eqn:E2;
      [apply Qle_bool_true in E2 | apply Qle_bool_false in E2];
      cbn [fst]; split; lra.
  - destruct (Qle_bool (nextY - 22) 40) eqn:E2;
      [apply Qle_bool_true in E2 | apply Qle_bool_false in E2];
      cbn [fst]; split; lra.
Qed.

Lemma clampBounds_interior (height nextY : Q) :
  snd (clampBounds height nextY) = false ->
  40 + UFO_RADIUS < nextY /\ nextY < height - 40 - UFO_RADIUS.
Proof.
  unfold clampBounds, UFO_RADIUS. cbv beta.
  destruct (Qle_bool (height - 40) (nextY + 22)) eqn:E1;
    [apply Qle_bool_true in E1 | apply Qle_bool_false in E1].
  - destruct (Qle_bool (height - 40 - 22 - 22) 40); cbn; discriminate.
  - destruct (Qle_bool (nextY - 22) 40) eqn:E2;
      [apply Qle_bool_true in E2 | apply Qle_bool_false in E2];
      cbn [snd]; [discriminate |]. intros _. split; lra.
Qed.

(** A frame of active play that does not end the run hit no bound and no
    rectangle, and commits the intended position and the damped velocity. *)
Lemma activeFrame_survivor (st : Game) (timestamp dt : Q)
  (cref : option Q) :
  let r := activeFrame st timestamp dt cref in
  snd r = None ->
  snd (clampBounds (height st) (intendedY st dt)) = false
  /\ ufoY (fst r) = intendedY st dt
  /\ collides (height st) (ufoY (fst r)) (obstacles (fst r)) = false
  /\ velocity (fst r) =
       (velocity st
        + (GRAVITY + (if isThrusting st then THRUST_ACCEL else 0)) * dt)
       * 0.995.
Proof.
  cbv zeta.
  destruct (activeFrame_fields st timestamp dt cref)
    as (Hy & Hobs & _ & _ & Hv & Hev).
  rewrite Hy, Hobs, Hv, Hev. clear Hy Hobs Hv Hev.
  pose proof (clampBounds_no_hit (height st) (intendedY st dt)) as Hno.
  destruct (snd (clampBounds (height st) (intendedY st dt)));
    cbn [negb]; [discriminate |].
  rewrite (Hno eq_refl).
  destruct (collides (height st) (intendedY st dt) _); [discriminate |].
  auto.
Qed.

(** In a field at least 124 high, every frame of active play commits a
    position between the ceiling and the floor, the radius apart:
    [40 + UFO_RADIUS <= ufoY <= height - 40 - UFO_RADIUS]. *)
Theorem tick_position_bounds (st : Game) (timestamp last : Q)
  (Hl : lastTimeRef st = Some last) (Hlt : last < timestamp)
  (Hact : inActivePlay st timestamp) (Hh : 124 <= height st) :
  40 + UFO_RADIUS <= ufoY (fst (tick st timestamp))
  /\ ufoY (fst (tick st timestamp)) <= height st - 40 - UFO_RADIUS.
Proof.
  destruct (tick_active st timestamp last Hl Hlt Hact) as [cref ->].
  destruct (activeFrame_fields st timestamp (frameDelta last timestamp) cref)
    as (-> & _).
  now apply clampBounds_range.
Qed.

(** A frame of active play that does not end the run leaves the craft
    strictly between the bounds and clear of every committed obstacle: the
    committed state passes the collision test. *)
Theorem tick_survivor (st : Game) (timestamp last : Q)
  (Hl : lastTimeRef st = Some last) (Hlt : last < timestamp)
  (Hact : inActivePlay st timestamp)
  (Hev : snd (tick st timestamp) = None) :
  let st' := fst (tick st timestamp) in
  40 + UFO_RADIUS < ufoY st'
  /\ ufoY st' < height st - 40 - UFO_RADIUS
  /\ collides (height st) (ufoY st') (obstacles st') = false.
Proof.
  cbv zeta. revert Hev.
  destruct (tick_active st timestamp last Hl Hlt Hact) as [cref ->].
  intros Hev.
  destruct (activeFrame_survivor st timestamp (frameDelta last timestamp)
              cref Hev) as (Hcb & Hy & Hcol & _).
  destruct (clampBounds_interior _ _ Hcb) as [H1 H2].
  rewrite Hy at 1 2. auto.
Qed.

(** When a frame reports game over, the pair it reports is the score and
    the distance it commits; the velocity is zeroed, no frame is requested
    and the time of the last frame is cleared; and that frame was a frame of
    active play after a positive elapsed time. *)
Theorem tick_game_over_report (st : Game) (timestamp : Q) (s : Z) (d : Q)
  (Hev : snd (tick st timestamp) = Some (s, d)) :
  let st' := fst (tick st timestamp) in
  score st' = s /\ distance st' = d /\ velocity st' = 0
  /\ lastTimeRef st' = None /\ rafRef st' = false
  /\ inActivePlay st timestamp
  /\ exists last, lastTimeRef st = Some last /\ last < timestamp.
Proof.
  cbv zeta. revert Hev. tick_split st timestamp; try discriminate.
  intros Hev.
  destruct (activeFrame_fields st timestamp (frameDelta last timestamp) x)
    as (_ & _ & Hs & Hd & Hv & Hev').
  destruct (activeFrame_refs st timestamp (frameDelta last timestamp) x)
    as (_ & _ & _ & _ & Hrefs).
  destruct Hrefs as [Hlast Hraf]; [congruence |].
  rewrite Hev in Hev'. rewrite Hs, Hd, Hv.
  destruct (if negb _ then _ else true); [| discriminate].
  injection Hev' as -> ->.
  repeat split; auto. now exists last.
Qed.

(** In a frame of active play that does not end the run, thrust held on a
    craft that is not falling makes it climb, and no thrust on a craft that
    is not climbing makes it fall. *)
Theorem tick_thrust_direction (st : Game) (timestamp last : Q)
  (Hl : lastTimeRef st = Some last) (Hlt : last < timestamp)
  (Hact : inActivePlay st timestamp)
  (Hev : snd (tick st timestamp) = None) :
  let st' := fst (tick st timestamp) in
  (isThrusting st = true -> velocity st <= 0 ->
   velocity st' < 0 /\ ufoY st' < ufoY st)
  /\ (isThrusting st = false -> 0 <= velocity st ->
      0 < velocity st' /\ ufoY st < ufoY st').
Proof.
  cbv zeta. revert Hev.
  destruct (tick_active st timestamp last Hl Hlt Hact) as [cref ->].
  intros Hev.
  destruct (activeFrame_survivor st timestamp (frameDelta last timestamp)
              cref Hev) as (_ & Hy & _ & Hv).
  rewrite Hy, Hv. unfold intendedY.
  pose proof (frameDelta_bounds last timestamp Hlt) as [H0 _].
  set (dt := frameDelta last timestamp) in *.
  unfold GRAVITY, THRUST_ACCEL.
  split; intros -> Hvel; split; nra.
Qed.

(** ** The collision test *)

(** The point of a segment [lo, hi] closest to [v], as the test computes
    it. *)
Lemma closest_point (lo v hi : Q) :
  let c := Qmax lo (Qmin v hi) in
  lo <= c
  /\ (c == lo \/ (c <= v /\ c <= hi))
  /\ (lo <= v -> v <= hi -> c == v).
Proof.
  cbv zeta.
  pose proof (Q.le_max_l lo (Qmin v hi)) as Hlo.
  pose proof (Q.le_min_l v hi) as Hv.
  pose proof (Q.le_min_r v hi) as Hhi.
  destruct (Q.max_spec lo (Qmin v hi)) as [[Hc Hm] | [Hc Hm]];
    destruct (Q.min_spec v hi) as [[Hc' Hm'] | [Hc' Hm']];
    split; try lra; split; try lra; intros; lra.
Qed.

Lemma circleHitsRect_miss (cx cy : Q) (r : Rect.t) :
  cx + UFO_RADIUS <= Rect.x r
  \/ (0 <= Rect.w r /\ Rect.x r + Rect.w r <= cx - UFO_RADIUS)
  \/ (UFO_RADIUS <= cy - Rect.y r /\ Rect.y r + Rect.h r + UFO_RADIUS <= cy)
  \/ cy + UFO_RADIUS <= Rect.y r ->
  circleHitsRect cx cy r = false.
Proof.
  intros H. unfold circleHitsRect. cbv zeta.
  apply Qlt_bool_elim_false.
  destruct (closest_point (Rect.x r) cx (Rect.x r + Rect.w r))
    as (Hx1 & Hx2 & _).
  destruct (closest_point (Rect.y r) cy (Rect.y r + Rect.h r))
    as (Hy1 & Hy2 & _).
  set (px := Qmax (Rect.x r) (Qmin cx (Rect.x r + Rect.w r))) in *.
  set (py := Qmax (Rect.y r) (Qmin cy (Rect.y r + Rect.h r))) in *.
  unfold UFO_RADIUS in *.
  assert (Hsq : forall a : Q, 0 <= a * a) by (intros a; nra).
  pose proof (Hsq (cx - px)) as Sx. pose proof (Hsq (cy - py)) as Sy.
  destruct H as [H | [[Hw H] | [[H H'] | H]]].
  - assert (22 <= px - cx) by (destruct Hx2 as [E | [E _]]; lra).
    assert (22 * 22 <= (cx - px) * (cx - px)) by nra. lra.
  - assert (22 <= cx - px) by (destruct Hx2 as [E | [_ E]]; lra).
    assert (22 * 22 <= (cx - px) * (cx - px)) by nra. lra.
  - assert (22 <= cy - py) by (destruct Hy2 as [E | [_ E]]; lra).
    assert (22 * 22 <= (cy - py) * (cy - py)) by nra. lra.
  - assert (22 <= py - cy) by lra.
    assert (22 * 22 <= (cy - py) * (cy - py)) by nra. lra.
Qed.

Lemma circleHitsRect_inside (cx cy : Q) (r : Rect.t) :
  Rect.x r <= cx <= Rect.x r + Rect.w r ->
  Rect.y r <= cy <= Rect.y r + Rect.h r ->
  circleHitsRect cx cy r = true.
Proof.
  intros [Hx1 Hx2] [Hy1 Hy2]. unfold circleHitsRect. cbv zeta.
  apply Qlt_bool_intro.
  destruct (closest_point (Rect.x r) cx (Rect.x r + Rect.w r))
    as (_ & _ & Ex).
  destruct (closest_point (Rect.y r) cy (Rect.y r + Rect.h r))
    as (_ & _ & Ey).
  specialize (Ex Hx1 Hx2). specialize (Ey Hy1 Hy2).
  rewrite Ex, Ey. unfold UFO_RADIUS. nra.
Qed.

(** The craft does not collide when every obstacle is clear of it: the
    circle is entirely left or right of the obstacle, or it fits inside the
    gap, the radius apart from both pillars and from the top of the
    field. *)
Theorem collides_clear (fieldHeight cy : Q) (os : list Obstacle)
  (Hclear : Forall (clearOf cy) os) :
  collides fieldHeight cy os = false.
Proof.
  unfold collides. induction Hclear as [|o os Ho _ IH]; [reflexivity |].
  cbn [existsb]. rewrite IH, orb_false_r.
  unfold obstacleRects. cbn [existsb]. rewrite orb_false_r.
  apply orb_false_iff. split; apply circleHitsRect_miss; cbn;
    destruct Ho as [H | [H | (H1 & H2 & H3)]]; auto.
  - right. right. left. split; lra.
  - right. right. right. lra.
Qed.

(** The craft collides when the centre of the circle is inside a pillar of
    some obstacle: horizontally within the obstacle, and above its gap or
    below it down to the bottom of the field. *)
Theorem collides_inside (fieldHeight cy : Q) (os : list Obstacle)
  (o : Obstacle) (Hin : In o os) (Hp : insidePillar fieldHeight cy o) :
  collides fieldHeight cy os = true.
Proof.
  unfold collides. apply existsb_exists. exists o. split; [exact Hin |].
  destruct Hp as [Hx [Hy | Hy]]; unfold obstacleRects; cbn [existsb].
  - apply orb_true_iff. left.
    apply circleHitsRect_inside; cbn; [exact Hx | lra].
  - apply orb_true_iff. right. rewrite orb_false_r.
    apply circleHitsRect_inside; cbn; [exact Hx | lra].
Qed.




(** ** The refill step, exactly *)

Lemma filter_all {A : Type} (f : A -> bool) (l : list A) :
  Forall (fun a => f a = true) l -> filter f l = l.
Proof.
  induction 1 as [|a l Ha _ IH]; [reflexivity |].
  cbn. now rewrite Ha, IH.
Qed.

Lemma refillLoop_length (fuel : nat) (height gap : Q) :
  forall (active : list Obstacle) (g : Gen),
    (needed - Z.of_nat (length active) <= Z.of_nat fuel)%Z ->
    Z.of_nat (length (fst (refillLoop fuel height gap active g)))
    = Z.max needed (Z.of_nat (length active)).
Proof.
  induction fuel as [|fuel IH]; intros active g Hf.
  - cbn [refillLoop fst]. lia.
  - cbn [refillLoop].
    destruct (Z.of_nat (length active) <? needed)%Z eqn:Hlen.
    + apply Z.ltb_lt in Hlen.
      destruct (spawnObstacle height (nextSpawnX active) gap g) as [o g1].
      rewrite IH; rewrite length_app; cbn [length]; lia.
    + apply Z.ltb_ge in Hlen. cbn [fst]. lia.
Qed.

Lemma refillLoop_full (fuel : nat) (height gap : Q)
  (active : list Obstacle) (g : Gen) :
  (needed <= Z.of_nat (length active))%Z ->
  refillLoop fuel height gap active g = (active, g).
Proof.
  intros H. destruct fuel as [|fuel]; [reflexivity |].
  cbn [refillLoop]. apply Z.ltb_ge in H. now rewrite H.
Qed.

(** The refill step spawns no more than it needs: the refilled list holds
    the kept obstacles, or [needed] obstacles when fewer were kept.  And
    refilling a refilled list, with any gap, changes nothing and draws no
    identifier or random number. *)
Theorem refill_exact (height gap gap' : Q) (os : list Obstacle)
  (g g' : Gen) (Hw : widthsOk os) :
  let kept :=
    filter (fun o => Obstacle.x o + Obstacle.width o >? -60) os in
  let refilled := fst (refill height gap os g) in
  Z.of_nat (length refilled) = Z.max needed (Z.of_nat (length kept))
  /\ refill height gap' refilled g' = (refilled, g').
Proof.
  cbv zeta. split.
  - unfold refill. apply refillLoop_length.
    rewrite Z2Nat.id by (vm_compute; discriminate). lia.
  - destruct (refill_inWindow height gap os g Hw) as [Hwin Hcnt].
    set (refilled := fst (refill height gap os g)) in *.
    unfold refill at 1. rewrite filter_all.
    + now apply refillLoop_full.
    + eapply Forall_impl; [| exact Hwin].
      intros o [_ Ho]. now apply Qlt_bool_intro.
Qed.

(** ** Order of the pipeline *)

Lemma StronglySorted_snoc {A : Type} (R : A -> A -> Prop) (l : list A)
  (a : A) :
  StronglySorted R l -> Forall (fun b => R b a) l ->
  StronglySorted R (l ++ [a]).
Proof.
  induction 1 as [|b l Hs IH Hb]; intros Hall; cbn.
  - constructor; constructor.
  - inversion Hall as [|? ? Hba Hrest]; subst.
    constructor; [now apply IH |].
    apply Forall_app. split; [exact Hb | now constructor].
Qed.

Lemma StronglySorted_filter {A : Type} (R : A -> A -> Prop)
  (f : A -> bool) (l : list A) :
  StronglySorted R l -> StronglySorted R (filter f l).
Proof.
  induction 1 as [|b l Hs IH Hb]; cbn; [constructor |].
  destruct (f b); [| exact IH].
  constructor; [exact IH |].
  rewrite Forall_forall in Hb |- *. intros c Hc.
  apply filter_In in Hc. now apply Hb.
Qed.

Lemma StronglySorted_pairwise {A : Type} (R : A -> A -> Prop) (l : list A) :
  (forall i j a b, (i < j)%nat ->
     nth_error l i = Some a -> nth_error l j = Some b -> R a b) ->
  StronglySorted R l.
Proof.
  induction l as [|c l IH]; intros H; constructor.
  - apply IH. intros i j a b Hij Ha Hb.
    apply (H (S i) (S j) a b); [lia | exact Ha | exact Hb].
  - apply Forall_forall. intros b Hb.
    apply In_nth_error in Hb. destruct Hb as [j Hj].
    apply (H 0%nat (S j) c b); [lia | reflexivity | exact Hj].
Qed.

Lemma moveObstacles_ordered (v dt : Q) (os : list Obstacle) (g : Gen) :
  pipelineOrdered os g -> pipelineOrdered (moveObstacles v dt os) g.
Proof.
  intros [Hs Hid]. unfold moveObstacles. split.
  - induction Hs as [|b l Hs IH Hb]; cbn; [constructor |].
    inversion Hid as [|? ? _ Hid']; subst.
    constructor; [now apply IH |].
    apply Forall_map. eapply Forall_impl; [| exact Hb].
    intros c [H1 H2]. split; cbn; [exact H1 | lra].
  - apply Forall_map. eapply Forall_impl; [| exact Hid]. now cbn.
Qed.

Lemma filter_ordered (f : Obstacle -> bool) (os : list Obstacle) (g : Gen) :
  pipelineOrdered os g -> pipelineOrdered (filter f os) g.
Proof.
  intros [Hs Hid]. split; [now apply StronglySorted_filter |].
  rewrite Forall_forall in Hid |- *. intros o Ho.
  apply filter_In in Ho. now apply Hid.
Qed.

Lemma nextSpawnX_ge (active : list Obstacle) (a : Obstacle) :
  In a active ->
  Obstacle.x a + OBSTACLE_SPACING <= nextSpawnX active.
Proof.
  destruct active as [|e rest]; [intros [] |]. intros Hin.
  cbn [nextSpawnX].
  destruct (fold_left_Qmax_ge (map Obstacle.x rest) (Obstacle.x e))
    as [Hhd Htl].
  destruct Hin as [<- | Hin]; [lra |].
  rewrite Forall_forall in Htl.
  specialize (Htl (Obstacle.x a) (in_map Obstacle.x rest a Hin)). lra.
Qed.

Lemma refillLoop_ordered (fuel : nat) (height gap : Q) :
  forall (active : list Obstacle) (g : Gen),
    pipelineOrdered active g ->
    pipelineOrdered (fst (refillLoop fuel height gap active g))
      (snd (refillLoop fuel height gap active g)).
Proof.
  induction fuel as [|fuel IH]; intros active g Hord; [exact Hord |].
  cbn [refillLoop].
  destruct (Z.of_nat (length active) <? needed)%Z; [| exact Hord].
  pose proof (spawnObstacle_fields height (nextSpawnX active) gap g) as Hsp.
  destruct (spawnObstacle height (nextSpawnX active) gap g) as [o g1].
  cbn [fst snd] in Hsp. destruct Hsp as (Hid & Hx & _ & _ & _ & Hg1).
  apply IH. destruct Hord as [Hs Hids]. split.
  - apply StronglySorted_snoc; [exact Hs |].
    rewrite Forall_forall in Hids |- *. intros a Ha.
    split; [rewrite Hid; now apply Hids |].
    rewrite Hx. now apply nextSpawnX_ge.
  - apply Forall_app. split.
    + eapply Forall_impl; [| exact Hids]. intros a Ha. cbn beta in *.
      rewrite Hg1. lia.
    + constructor; [rewrite Hid, Hg1; lia | constructor].
Qed.

Lemma refill_ordered (height gap : Q) (os : list Obstacle) (g : Gen) :
  pipelineOrdered os g ->
  pipelineOrdered (fst (refill height gap os g))
    (snd (refill height gap os g)).
Proof.
  intros H. unfold refill. apply refillLoop_ordered.
  now apply filter_ordered.
Qed.

Lemma markedAt_ordered (line : Q) (os os' : list Obstacle) (g : Gen) :
  Forall2 (markedAt line) os os' ->
  pipelineOrdered os g -> pipelineOrdered os' g.
Proof.
  intros Hm [Hs Hid]. split.
  - revert Hs. clear Hid.
    induction Hm as [|o o' os os' Ho Hm IH]; intros Hs; [constructor |].
    apply StronglySorted_inv in Hs. destruct Hs as [Hs Hall].
    constructor; [now apply IH |].
    destruct Ho as (Hi & Hx & _).
    clear IH Hs. induction Hm as [|a a' l l' Ha _ IH]; [constructor |].
    inversion Hall as [|? ? [H1 H2] Hrest]; subst.
    destruct Ha as (Hi' & Hx' & _).
    constructor; [| now apply IH].
    split; [rewrite Hi, Hi'; exact H1 | rewrite Hx, Hx'; exact H2].
  - clear Hs. induction Hm as [|o o' os os' Ho _ IH]; [constructor |].
    inversion Hid as [|? ? H1 Hrest]; subst.
    destruct Ho as (Hi & _).
    constructor; [rewrite Hi; exact H1 | now apply IH].
Qed.

Lemma pipelineOrdered_counter (os : list Obstacle) (g g' : Gen) :
  obstacleIdRef g' = obstacleIdRef g ->
  pipelineOrdered os g -> pipelineOrdered os g'.
Proof. intros E [Hs Hid]. split; [exact Hs |]. now rewrite E. Qed.

Lemma ordered_NoDup (os : list Obstacle) (g : Gen) :
  pipelineOrdered os g -> NoDup (map Obstacle.id os).
Proof.
  intros [Hs _]. induction Hs as [|b l Hs IH Hb]; cbn; constructor;
    [| exact IH].
  intros Hin. apply in_map_iff in Hin. destruct Hin as [c [Hc Hin]].
  rewrite Forall_forall in Hb. destruct (Hb c Hin) as [Hlt _]. lia.
Qed.

(** The obstacle loop of [resetGame]. *)
Lemma resetGame_loop (h : Q) (len : nat) :
  forall (start : nat) (acc : list Obstacle * Gen),
    let r :=
      fold_left
        (fun (acc : list Obstacle * Gen) (i : nat) =>
           let '(o, g') :=
             spawnObstacle h
               (480 + inject_Z (Z.of_nat i) * OBSTACLE_SPACING)
               (gap (getCurrentParams 0)) (snd acc) in
           (fst acc ++ [o], g'))
        (seq start len) acc in
    exists spawned,
      fst r = fst acc ++ spawned
      /\ length spawned = len
      /\ obstacleIdRef (snd r)
         = (obstacleIdRef (snd acc) + Z.of_nat len)%Z
      /\ forall j o, nth_error spawned j = Some o ->
           initialAt (start + j)
             (obstacleIdRef (snd acc) + Z.of_nat j)%Z o.
Proof.
  induction len as [|len IH]; intros start acc; cbv zeta.
  - exists []. cbn. rewrite app_nil_r.
    split; [reflexivity |]. split; [reflexivity |]. split; [lia |].
    intros [|j] o Hj; discriminate.
  - cbn [seq fold_left].
    pose proof (spawnObstacle_fields h
                  (480 + inject_Z (Z.of_nat start) * OBSTACLE_SPACING)
                  (gap (getCurrentParams 0)) (snd acc)) as Hsp.
    destruct (spawnObstacle _ _ _ _) as [o g1]. cbn [fst snd] in Hsp.
    destruct Hsp as (Hid & Hx & Hgh & Hw & Hp & Hg1).
    destruct (IH (S start) (fst acc ++ [o], g1))
      as (sp & Hres & Hlen & Hids & Hnth).
    cbn [fst snd] in *.
    exists (o :: sp). rewrite Hres, <- app_assoc. cbn [app length].
    split; [reflexivity |]. split; [now rewrite Hlen |].
    split; [rewrite Hids, Hg1; lia |].
    intros [|j] o' Hj.
    + cbn in Hj. injection Hj as <-. rewrite Nat.add_0_r, Z.add_0_r.
      unfold initialAt. rewrite Hgh.
      repeat split; auto.
    + cbn in Hj. specialize (Hnth j o' Hj).
      replace (start + S j)%nat with (S start + j)%nat by lia.
      replace (obstacleIdRef (snd acc) + Z.of_nat (S j))%Z
        with (obstacleIdRef g1 + Z.of_nat j)%Z by (rewrite Hg1; lia).
      exact Hnth.
Qed.

Lemma initialAt_before (i j : nat) (a b : Obstacle) (ident : Z) :
  (i < j)%nat ->
  initialAt i (ident + Z.of_nat i)%Z a ->
  initialAt j (ident + Z.of_nat j)%Z b ->
  before a b.
Proof.
  intros Hij (Hxa & Hia & _) (Hxb & Hib & _). split.
  - rewrite Hia, Hib. lia.
  - rewrite Hxa, Hxb. unfold OBSTACLE_SPACING.
    assert (H : inject_Z (Z.of_nat i) + 1 <= inject_Z (Z.of_nat j)).
    { change 1 with (inject_Z 1). rewrite <- inject_Z_plus.
      rewrite <- Zle_Qle. lia. }
    lra.
Qed.

(** ** Starting, pausing and resuming *)

Lemma resetGame_fields (st : Game) :
  let r := resetGame st in
  height r = height st /\ ufoY r = height st / 2 /\ velocity r = 0
  /\ score r = 0%Z /\ distance r = 0
  /\ countdown r = Some COUNTDOWN_DURATION
  /\ countdownStartRef r = None /\ lastTimeRef r = None
  /\ isThrusting r = isThrusting st /\ rafRef r = rafRef st
  /\ parallax r = parallax st.
Proof.
  unfold resetGame. cbv zeta.
  destruct (fold_left _ _ _) as [initial g1]. cbn. auto 15.
Qed.

Lemma resetGame_obstacles (st : Game) :
  length (obstacles (resetGame st)) = 6%nat
  /\ obstacleIdRef (gen (resetGame st)) = (obstacleIdRef (gen st) + 6)%Z
  /\ forall j o, nth_error (obstacles (resetGame st)) j = Some o ->
       initialAt j (obstacleIdRef (gen st) + Z.of_nat j)%Z o.
Proof.
  unfold resetGame. cbv zeta.
  change (Z.to_nat (Qceiling (960 / OBSTACLE_SPACING) + 2)) with 6%nat.
  pose proof (resetGame_loop (height st) 6 0 ([], gen st)) as H.
  cbv zeta in H.
  destruct (fold_left _ (seq 0 6) ([], gen st)) as [initial g1].
  cbn [fst snd obstacles gen app] in *.
  destruct H as (sp & -> & Hlen & Hid & Hnth).
  split; [exact Hlen |]. split; [exact Hid |]. exact Hnth.
Qed.

Lemma resetGame_ordered (st : Game) :
  pipelineOrdered (obstacles (resetGame st)) (gen (resetGame st)).
Proof.
  destruct (resetGame_obstacles st) as (Hlen & Hid & Hnth). split.
  - apply StronglySorted_pairwise. intros i j a b Hij Ha Hb.
    eapply initialAt_before; [exact Hij | |]; eauto.
  - apply Forall_forall. intros o Ho. apply In_nth_error in Ho.
    destruct Ho as [j Hj].
    assert (Hlt : (j < 6)%nat)
      by (rewrite <- Hlen; apply nth_error_Some; congruence).
    destruct (Hnth j o Hj) as (_ & -> & _). rewrite Hid. lia.
Qed.

Lemma onPhase_resume (st : Game) :
  onPhase GameShell.running (onPhase GameShell.paused st)
  = onPhase GameShell.running st.
Proof.
  unfold onPhase, loopEffect, phaseEffect, requestFrame, setIsThrusting,
    resetGame.
  cbn [height ufoY velocity obstacles score distance parallax isThrusting
       countdown countdownStartRef lastTimeRef rafRef gen].
  destruct (fold_left _ _ _) as [initial g1]. reflexivity.
Qed.

(** Entering the running phase resets the run, whatever the state before:
    the craft at mid height and at rest, score and distance 0, thrust off,
    the countdown armed at [COUNTDOWN_DURATION] with no start time yet, a
    frame requested, and six fresh obstacles from 480 on, one spacing
    apart, in order.  The effect cannot tell a start from a resume: leaving
    a pause restarts the run. *)
Theorem onPhase_running_resets (st : Game) :
  let st' := onPhase GameShell.running st in
  ufoY st' = height st / 2 /\ velocity st' = 0
  /\ score st' = 0%Z /\ distance st' = 0
  /\ isThrusting st' = false
  /\ countdown st' = Some COUNTDOWN_DURATION
  /\ countdownStartRef st' = None /\ lastTimeRef st' = None
  /\ rafRef st' = true
  /\ length (obstacles st') = 6%nat
  /\ (forall j o, nth_error (obstacles st') j = Some o ->
        initialAt j (obstacleIdRef (gen st) + Z.of_nat j)%Z o)
  /\ pipelineOrdered (obstacles st') (gen st')
  /\ onPhase GameShell.running (onPhase GameShell.paused st) = st'.
Proof.
  cbv zeta.
  destruct (resetGame_fields st)
    as (Hh & Hy & Hv & Hs & Hd & Hc & Hcs & Hlt & Hth & Hraf & Hpar).
  destruct (resetGame_obstacles st) as (Hlen & Hid & Hnth).
  pose proof (resetGame_ordered st) as Hord.
  pose proof (onPhase_resume st) as Hres.
  unfold onPhase, loopEffect, phaseEffect, requestFrame, setIsThrusting
    in Hres |- *.
  cbn [height ufoY velocity obstacles score distance parallax isThrusting
       countdown countdownStartRef lastTimeRef rafRef gen] in Hres |- *.
  rewrite Hy, Hv, Hs, Hd, Hc, Hcs, Hlt in *.
  repeat (split; [auto; fail |]). exact Hres.
Qed.

Lemma tick_countdown_start (st : Game) (timestamp last : Q) :
  lastTimeRef st = Some last -> last < timestamp ->
  inCountdown st timestamp ->
  tick st timestamp =
  (countdownFrame st timestamp (frameDelta last timestamp)
     (match countdownStartRef st with
      | None => timestamp
      | Some c => c
      end)
     (remainingAt st timestamp), None).
Proof.
  intros Hl Hlt [Hc Hrem]. unfold tick. rewrite Hl.
  rewrite (elapsed_positive _ _ Hlt).
  destruct (countdown st) as [c|]; [| congruence].
  unfold remainingAt in *. fold (frameDelta last timestamp).
  destruct (Qle_bool _ 0) eqn:E in |- *; [| reflexivity].
  apply Qle_bool_true in E. lra.
Qed.

(** After the running phase is entered, the first frame callback only
    records its time and reports nothing; the second one is the first frame
    of the countdown: the countdown starts at that timestamp with all of
    [COUNTDOWN_DURATION] left, the pipeline is topped up to seven obstacles,
    the distance is the warm-up scroll of that frame and the score is 0. *)
Theorem start_countdown (st : Game) (t0 t1 : Q) (Ht : t0 < t1) :
  let s1 := fst (tick (onPhase GameShell.running st) t0) in
  let s2 := fst (tick s1 t1) in
  snd (tick (onPhase GameShell.running st) t0) = None
  /\ snd (tick s1 t1) = None
  /\ (exists c, countdown s2 = Some c /\ c == COUNTDOWN_DURATION)
  /\ countdownStartRef s2 = Some t1
  /\ length (obstacles s2) = 7%nat
  /\ distance s2 == 80 * frameDelta t0 t1
  /\ score s2 = 0%Z.
Proof.
  cbv zeta.
  destruct (resetGame_fields st)
    as (_ & _ & _ & Hs & Hd & Hc & Hcs & Hlt & _).
  destruct (resetGame_obstacles st) as (Hlen & _).
  set (s0 := onPhase GameShell.running st) in *.
  rewrite (tick_first_frame s0 t0 Hlt). cbn [fst snd].
  set (s1 := requestFrame s0 (Some t0)).
  assert (F1 : countdown s1 = Some COUNTDOWN_DURATION) by exact Hc.
  assert (F2 : countdownStartRef s1 = None) by exact Hcs.
  assert (F3 : length (obstacles s1) = 6%nat) by exact Hlen.
  assert (F4 : distance s1 = 0) by exact Hd.
  assert (F5 : score s1 = 0%Z) by exact Hs.
  assert (F6 : lastTimeRef s1 = Some t0) by reflexivity.
  clearbody s1.
  assert (Hrem : remainingAt s1 t1 == COUNTDOWN_DURATION).
  { unfold remainingAt. rewrite F2. unfold COUNTDOWN_DURATION.
    rewrite Qdiv_1000. lra. }
  assert (Hcd : inCountdown s1 t1).
  { split; [rewrite F1; discriminate |].
    rewrite Hrem. reflexivity. }
  rewrite (tick_countdown_start s1 t1 t0 F6 Ht Hcd). cbn [fst snd].
  destruct (countdownFrame_fields s1 t1 (frameDelta t0 t1)
              (match countdownStartRef s1 with
               | None => t1
               | Some c => c
               end) (remainingAt s1 t1))
    as (_ & _ & Hs' & Hd' & Hobs & _ & Hc' & Hcs' & _).
  split; [reflexivity |]. split; [reflexivity |].
  split; [| split; [| split; [| split]]].
  - exists (remainingAt s1 t1). split; [exact Hc' | exact Hrem].
  - rewrite Hcs'. now rewrite F2.
  - rewrite Hobs. unfold refill.
    apply Nat2Z.inj. rewrite refillLoop_length.
    + pose proof (filter_length_le
                    (fun o => Obstacle.x o + Obstacle.width o >? -60)
                    (moveObstacles 80 (frameDelta t0 t1) (obstacles s1)))
        as Hle.
      unfold moveObstacles in Hle at 2. rewrite length_map in Hle.
      rewrite F3 in Hle.
      change needed with 7%Z. lia.
    + rewrite Z2Nat.id by (vm_compute; discriminate). lia.
  - rewrite Hd', F4. lra.
  - rewrite Hs'. exact F5.
Qed.

Lemma tick_ordered (st : Game) (timestamp : Q) :
  pipelineOrdered (obstacles st) (gen st) ->
  pipelineOrdered (obstacles (fst (tick st timestamp)))
    (gen (fst (tick st timestamp))).
Proof.
  intros Hord. tick_split st timestamp.
  - exact Hord.
  - exact Hord.
  - destruct (countdownFrame_fields st timestamp
                (frameDelta last timestamp) x (remainingAt st timestamp))
      as (_ & _ & _ & _ & -> & Hid & _).
    eapply pipelineOrdered_counter; [exact Hid |].
    apply refill_ordered. now apply moveObstacles_ordered.
  - destruct (activeFrame_fields st timestamp (frameDelta last timestamp)
                x) as (_ & -> & _).
    destruct (activeFrame_refs st timestamp (frameDelta last timestamp) x)
      as (_ & _ & Hid & _).
    destruct (scoreUpdate_spec (refilledAt st (frameDelta last timestamp))
                (score st)) as [Hm _].
    eapply markedAt_ordered; [exact Hm |].
    eapply pipelineOrdered_counter; [exact Hid |].
    unfold refilledAt. apply refill_ordered.
    now apply moveObstacles_ordered.
Qed.

(** Along a run the obstacles stay in spawn order: every frame keeps them
    sorted by identifier and by position, any two at least one spacing
    apart, with the identifier counter beyond all of them; in particular no
    two obstacles share an identifier. *)
Theorem tick_pipelineOrdered (st : Game) (timestamp : Q)
  (Hord : pipelineOrdered (obstacles st) (gen st)) :
  let st' := fst (tick st timestamp) in
  pipelineOrdered (obstacles st') (gen st')
  /\ NoDup (map Obstacle.id (obstacles st')).
Proof.
  cbv zeta. pose proof (tick_ordered st timestamp Hord) as H.
  split; [exact H | eapply ordered_NoDup; exact H].
Qed.

(** ** The countdown *)

(** In a frame of the countdown the offset of the craft from mid height is
    multiplied by [Math.pow(0.25, dt)], the distance grows by the warm-up
    scroll [80 * dt], the countdown shows the time left, and velocity and
    score are those of before. *)
Theorem tick_countdown_frame (st : Game) (timestamp last : Q)
  (Hl : lastTimeRef st = Some last) (Hlt : last < timestamp)
  (Hcd : inCountdown st timestamp) :
  let dt := frameDelta last timestamp in
  let st' := fst (tick st timestamp) in
  height st / 2 - ufoY st' == (height st / 2 - ufoY st) * Math_pow 0.25 dt
  /\ distance st' == distance st + 80 * dt
  /\ countdown st' = Some (remainingAt st timestamp)
  /\ velocity st' = velocity st
  /\ score st' = score st.
Proof.
  cbv zeta. rewrite (tick_countdown_start st timestamp last Hl Hlt Hcd).
  cbn [fst].
  destruct (countdownFrame_fields st timestamp (frameDelta last timestamp)
              (match countdownStartRef st with
               | None => timestamp
               | Some c => c
               end) (remainingAt st timestamp))
    as (-> & -> & -> & -> & _ & _ & -> & _).
  repeat split; try reflexivity. ring.
Qed.

(** A countdown started at [c] lasts [COUNTDOWN_DURATION] seconds of
    timestamps: a frame before [c + 3000] ms is a countdown frame and
    reports nothing; a frame at or after it is a frame of active play, and
    clears the countdown unless it ends the run. *)
Theorem countdown_duration (st : Game) (timestamp last c : Q)
  (Hl : lastTimeRef st = Some last) (Hlt : last < timestamp)
  (Hc : countdown st <> None) (Hcs : countdownStartRef st = Some c) :
  (timestamp < c + 3000 ->
   inCountdown st timestamp /\ snd (tick st timestamp) = None
   /\ countdown (fst (tick st timestamp)) <> None)
  /\ (c + 3000 <= timestamp ->
      inActivePlay st timestamp
      /\ (snd (tick st timestamp) = None ->
          countdown (fst (tick st timestamp)) = None)).
Proof.
  assert (Hrem : remainingAt st timestamp
                 == 3 - (timestamp - c) * (1 # 1000)).
  { unfold remainingAt. rewrite Hcs. unfold COUNTDOWN_DURATION.
    now rewrite Qdiv_1000. }
  split; intros Ht.
  - assert (Hcd : inCountdown st timestamp)
      by (split; [exact Hc | rewrite Hrem; lra]).
    split; [exact Hcd |].
    rewrite (tick_countdown_start st timestamp last Hl Hlt Hcd).
    cbn [fst snd]. split; [reflexivity |].
    destruct (countdownFrame_fields st timestamp (frameDelta last timestamp)
                (match countdownStartRef st with
                 | None => timestamp
                 | Some c => c
                 end) (remainingAt st timestamp))
      as (_ & _ & _ & _ & _ & _ & -> & _).
    discriminate.
  - assert (Hact : inActivePlay st timestamp)
      by (right; rewrite Hrem; lra).
    split; [exact Hact |].
    destruct (tick_active st timestamp last Hl Hlt Hact) as [cref ->].
    intros Hev.
    destruct (activeFrame_refs st timestamp (frameDelta last timestamp) cref)
      as (_ & _ & _ & Hnone & _).
    now destruct (Hnone Hev) as (_ & _ & ->).
Qed.

(** ** Resize *)

(** The resize observer keeps the field between a third of the design size
    and the design size, at the design aspect ratio: the width within
    [320, 960], the height [width * 440 / 960] within [440 / 3, 440], above
    the 124 the floor and ceiling clamps need to stay in order; the two
    scale factors of the render agree. *)
Theorem resize_bounds (rectWidth : Q) :
  let w := fst (resize rectWidth) in
  let h := snd (resize rectWidth) in
  320 <= w <= 960
  /\ h * 960 == w * 440
  /\ (440 # 3) <= h <= 440
  /\ renderScale w h == w * (1 # 960)
  /\ (320 <= rectWidth <= 960 -> w == rectWidth).
Proof.
  cbv zeta. unfold resize, renderScale. cbv zeta. cbn [fst snd].
  set (w := Qmax 320 (Qmin rectWidth 960)).
  assert (Hw : 320 <= w <= 960 /\ (320 <= rectWidth <= 960 -> w == rectWidth)).
  { unfold w.
    destruct (Q.max_spec 320 (Qmin rectWidth 960)) as [[Hc Hm] | [Hc Hm]];
      destruct (Q.min_spec rectWidth 960) as [[Hc' Hm'] | [Hc' Hm']];
      split; try split; try intros [? ?]; lra. }
  destruct Hw as [[Hw1 Hw2] Hw3].
  assert (Hh : w / (960 / 440) == w * (11 # 24)) by field.
  assert (Hs1 : w / 960 == w * (1 # 960)) by reflexivity.
  assert (Hs2 : w / (960 / 440) / 440 == w * (1 # 960)) by field.
  split; [split; assumption |]. split; [rewrite Hh; ring |].
  split; [rewrite Hh; split; lra |]. split; [| exact Hw3].
  rewrite Hs1, Hs2. apply Q.min_id.
Qed.

(** ** Input *)

Lemma inputCall_keyboard (e : InputEvent) (h : Hooks) :
  keyboardEvent e ->
  match snd (inputCall e h) with
  | Some v => v = negb (keyActive h)
              /\ keyActive (fst (inputCall e h)) = v
  | None => keyActive (fst (inputCall e h)) = keyActive h
  end.
Proof.
  destruct e as [| | | | | code | code]; cbn [keyboardEvent]; try tauto;
    intros _; cbn [inputCall];
    destruct (isThrustKey code); cbn [negb]; try reflexivity;
    destruct (keyActive h) eqn:E; cbn; auto.
Qed.

(** The keyboard hook is debounced: over any sequence of key events, with
    auto-repeat and other keys mixed in, the calls to [setIsThrusting]
    alternate, starting with [true] when no thrust key was held. *)
Theorem keyboard_calls_alternate (events : list InputEvent) (h : Hooks)
  (Hk : Forall keyboardEvent events) :
  alternating (negb (keyActive h)) (inputCalls events h).
Proof.
  revert h. induction Hk as [|e events He _ IH]; intros h; [exact I |].
  cbn [inputCalls].
  pose proof (inputCall_keyboard e h He) as Hc.
  destruct (inputCall e h) as [h' [v|]]; cbn [fst snd] in Hc.
  - destruct Hc as [Hv Hk']. cbn [alternating]. split; [exact Hv |].
    rewrite <- Hv, <- Hk'. apply IH.
  - rewrite <- Hc. apply IH.
Qed.

Lemma handleInput_thrustHeld (e : InputEvent) (hs : Hooks * Game) :
  thrustHeld hs -> thrustHeld (handleInput e hs).
Proof.
  destruct hs as [h st]. unfold thrustHeld, handleInput. cbn [fst snd].
  intros H.
  destruct e as [| | | | | code | code]; cbn [inputCall];
    unfold startThrust, stopThrust;
    try destruct (isThrustKey code); cbn [negb];
    try destruct (mouseDown h) eqn:Em;
    try destruct (keyActive h) eqn:Ek;
    cbn; try discriminate; auto; intros Ht;
    try (destruct (H Ht) as [? | ?]; discriminate).
Qed.

Lemma handleInput_game (e : InputEvent) (hs : Hooks * Game) :
  obstacles (snd (handleInput e hs)) = obstacles (snd hs)
  /\ gen (snd (handleInput e hs)) = gen (snd hs).
Proof.
  unfold handleInput. destruct (inputCall e (fst hs)) as [h' [v|]]; cbn; auto.
Qed.

Lemma tick_isThrusting (st : Game) (timestamp : Q) :
  isThrusting (fst (tick st timestamp)) = isThrusting st.
Proof.
  tick_split st timestamp; try reflexivity.
  - now destruct (countdownFrame_fields st timestamp
                    (frameDelta last timestamp) x (remainingAt st timestamp))
      as (_ & _ & _ & _ & _ & _ & _ & _ & _ & _ & -> & _).
  - now destruct (activeFrame_refs st timestamp (frameDelta last timestamp) x)
      as (_ & -> & _).
Qed.

Lemma onPhase_fields (p : GameShell.GamePhase) (st : Game) :
  isThrusting (onPhase p st) = false
  /\ (p <> GameShell.running ->
      obstacles (onPhase p st) = obstacles st
      /\ gen (onPhase p st) = gen st).
Proof.
  destruct p; cbn; split; auto; try congruence.
Qed.

Lemma canvasStep_inv (a : CanvasAction) (hs : Hooks * Game) :
  canvasInv hs -> canvasInv (canvasStep a hs).
Proof.
  intros (Ht & Hw & Ho). destruct a as [e | timestamp | p]; cbn [canvasStep].
  - destruct (handleInput_game e hs) as [E1 E2].
    split; [now apply handleInput_thrustHeld |]. now rewrite E1, E2.
  - split; [| split].
    + unfold thrustHeld in *. cbn [fst snd]. now rewrite tick_isThrusting.
    + cbn [snd].
      destruct (tick_cases (snd hs) timestamp)
        as [[Hl E] | [(last & Hl & Hlt & E)
           | [(last & ? & Hl & Hlt & ? & E) | (last & ? & Hl & Hlt & ? & E)]]].
      * now rewrite E.
      * now rewrite E.
      * destruct (tick_pipeline (snd hs) timestamp last Hl Hlt Hw) as [Hin _].
        eapply Forall_impl; [| exact Hin]. now intros o [Ho' _].
      * destruct (tick_pipeline (snd hs) timestamp last Hl Hlt Hw) as [Hin _].
        eapply Forall_impl; [| exact Hin]. now intros o [Ho' _].
    + cbn [snd]. now apply tick_ordered.
  - destruct (onPhase_fields p (snd hs)) as [Hth Hsame].
    split; [| cbn [snd]].
    + unfold thrustHeld. cbn [fst snd]. rewrite Hth. discriminate.
    + destruct (GameShell.GamePhase_eq_dec p GameShell.running) as [-> | Hp].
      * split.
        -- exact (resetGame_widthsOk (snd hs)).
        -- exact (resetGame_ordered (snd hs)).
      * destruct (Hsame Hp) as [-> ->]. now split.
Qed.

(** Every state of the mounted canvas, after any sequence of input events,
    frame callbacks and phase changes, satisfies: thrust is on only while
    the mouse, a touch or a thrust key is held; every obstacle has the
    standard width; the obstacles are in spawn order, a spacing apart or
    more, with distinct identifiers. *)
Theorem canvasRun_invariant (acts : list CanvasAction) :
  canvasInv (canvasRun acts mounted)
  /\ NoDup (map Obstacle.id (obstacles (snd (canvasRun acts mounted)))).
Proof.
  assert (H : forall hs, canvasInv hs -> canvasInv (canvasRun acts hs)).
  { induction acts as [|a acts IH]; intros hs Hinv; [exact Hinv |].
    unfold canvasRun in *. cbn [fold_left]. apply IH.
    now apply canvasStep_inv. }
  assert (H0 : canvasInv mounted).
  { split; [intros Hth; discriminate |].
    split; [constructor |]. split; constructor. }
  specialize (H mounted H0). split; [exact H |].
  destruct H as (_ & _ & Hord). eapply ordered_NoDup; exact Hord.
Qed.

(** ** The background *)

(** With random draws in [0, 1), a background update keeps the number of
    layers and the speed, size and opacity of each; a layer scrolls left by
    its speed times [factor * delta], and one that would pass -10 re-enters
    between 960 and 1080, so that afterwards no layer is left of -10; the
    draw counter never goes back. *)
Theorem updateParallax_layers (factor delta : Q)
  (layers : list ParallaxLayer) (calls : nat)
  (Hr : forall i : nat, 0 <= Math_random i < 1) :
  let r := updateParallax factor delta layers calls in
  Forall2
    (fun s s' =>
       ParallaxLayer.speed s' = ParallaxLayer.speed s
       /\ ParallaxLayer.size s' = ParallaxLayer.size s
       /\ ParallaxLayer.opacity s' = ParallaxLayer.opacity s
       /\ ((ParallaxLayer.x s'
            = ParallaxLayer.x s - ParallaxLayer.speed s * factor * delta
            /\ -10 <= ParallaxLayer.x s')
           \/ (ParallaxLayer.x s - ParallaxLayer.speed s * factor * delta
               < -10
               /\ 960 <= ParallaxLayer.x s' < 1080)))
    layers (fst r)
  /\ Forall (fun s' => -10 <= ParallaxLayer.x s') (fst r)
  /\ (calls <= snd r)%nat.
Proof.
  cbv zeta. revert calls.
  induction layers as [|s rest IH]; intros calls.
  - cbn. repeat split; auto.
  - cbn [updateParallax].
    destruct (Qlt_bool
                (ParallaxLayer.x s - ParallaxLayer.speed s * factor * delta)
                (-10)) eqn:E;
      [apply Qlt_bool_true in E | apply Qlt_bool_false in E].
    + destruct (IH (S calls)) as (H1 & H2 & H3).
      destruct (updateParallax factor delta rest (S calls)) as [rest' c2].
      cbn [fst snd] in *.
      destruct (Hr calls) as [Hr0 Hr1].
      assert (Hx : 960 <= 960 + Math_random calls * 120 < 1080)
        by (split; lra).
      split; [| split; [| lia]].
      * constructor; [| exact H1]. cbn. repeat split; auto.
      * constructor; [cbn; lra | exact H2].
    + destruct (IH calls) as (H1 & H2 & H3).
      destruct (updateParallax factor delta rest calls) as [rest' c2].
      cbn [fst snd] in *.
      split; [| split; [| lia]].
      * constructor; [| exact H1]. cbn. repeat split; auto.
      * constructor; [cbn; lra | exact H2].
Qed.

End Host.

(** ** The statements on concrete frames *)

Lemma getCurrentParams_monotone_witness :
  speed (getCurrentParams 1000) <= speed (getCurrentParams 3000)
  /\ gap (getCurrentParams 3000) <= gap (getCurrentParams 1000).
Proof.
  assert (H0 : 0 <= 1000) by (vm_compute; discriminate).
  assert (H1 : 1000 < 3000) by reflexivity.
  assert (H2 : 3000 <= DIFFICULTY_MAX_DISTANCE) by (vm_compute; discriminate).
  destruct (getCurrentParams_monotone 1000 3000 H0 H1 H2) as (Hs & Hg & _).
  split; assumption.
Defined.

Lemma refill_pipeline_witness :
  widthsOk lateCorridor
  /\ (7 <= Z.of_nat
             (length (fst (refill halfRandom 440 220 lateCorridor
                             (mkGen 7 7)))))%Z.
Proof.
  assert (Hw : widthsOk lateCorridor)
    by (repeat constructor; reflexivity).
  split; [exact Hw |].
  exact (proj1 (refill_pipeline halfRandom 440 220 lateCorridor
                  (mkGen 7 7) Hw)).
Defined.

(** On that input the first obstacle is culled and one obstacle is spawned,
    260 beyond the last one, with the identifier the counter held. *)
Example refill_lateCorridor :
  map (fun o => (Obstacle.id o, Qred (Obstacle.x o), Obstacle.passed o))
    (fst (refill halfRandom 440 220 lateCorridor (mkGen 7 7)))
  = [((-1)%Z, 85, false); (0%Z, 345, false); (1%Z, 605, false);
     (2%Z, 865, false); (3%Z, 1125, false); (4%Z, 1385, false);
     (7%Z, 1645, false)].
Proof. vm_compute. reflexivity. Qed.

Lemma spawnObstacle_gap_placement_witness :
  (0 <= halfRandom 0 < 1)
  /\ Obstacle.gapY (fst (spawnObstacle halfRandom 440 480 220 (mkGen 0 0)))
     == 80 + 220 / 2 + halfRandom 0 * (440 - 2 * 80 - 220).
Proof.
  assert (Hr : 0 <= halfRandom 0 < 1)
    by (split; [vm_compute; discriminate | reflexivity]).
  split; [exact Hr |].
  destruct (spawnObstacle_gap_placement halfRandom 440 480 220 (mkGen 0 0) Hr)
    as (Hpos & _ & Hc).
  destruct (Hpos eq_refl) as (Htop & _).
  rewrite Hc, Htop. reflexivity.
Defined.

(** C4, as stated, fails.  With a field of 440, a gap of 220 and the draw
    1/2 the usable range is 60 and [gapY] is 220, outside the claimed
    [80, 140]; with a field of 300 and a gap of 220 the usable range is
    negative and [gapY] is 190, not 80. *)
Lemma spawnObstacle_gapY_outside_claimed_range :
  let o := fst (spawnObstacle halfRandom 440 480 220 (mkGen 0 0)) in
  let o' := fst (spawnObstacle halfRandom 300 480 220 (mkGen 0 0)) in
  0 < 440 - 2 * 80 - 220
  /\ Obstacle.gapY o == 220
  /\ ~ (80 <= Obstacle.gapY o <= 440 - 80 - 220)
  /\ 300 - 2 * 80 - 220 <= 0
  /\ Obstacle.gapY o' == 190
  /\ ~ Obstacle.gapY o' == 80.
Proof.
  cbv zeta. split; [reflexivity |].
  split; [vm_compute; reflexivity |]. split; [| split; [| split]].
  - intros [_ H]. vm_compute in H. now apply H.
  - vm_compute. discriminate.
  - vm_compute. reflexivity.
  - vm_compute. discriminate.
Qed.

Lemma midRun_active : inActivePlay midRun 5010.
Proof. left. reflexivity. Defined.

Lemma tick_scoring_witness :
  scoresAgainst halfRandom linearPow scoreLine midRun 5000 5010.
Proof.
  exact (proj1 (tick_scoring halfRandom linearPow midRun 5010 5000
                  eq_refl eq_refl midRun_active)).
Defined.

(** C2, as stated, fails.  In the frame at 5010 ms of [midRun] the first
    obstacle moves from x = 345 to x = 343.1: its trailing edge, at 423.1,
    is still right of the centre of the collision circle (400), yet the
    frame marks it passed and the score goes from 0 to 1.  Scoring against
    the collision anchor would leave the score at 0. *)
Lemma tick_scores_before_collision_anchor :
  ~ scoresAgainst halfRandom linearPow ufoX midRun 5000 5010.
Proof.
  unfold scoresAgainst. intros [_ H]. vm_compute in H. discriminate.
Qed.

(** The same frame, evaluated. *)
Example tick_midRun :
  let st' := fst (tick halfRandom linearPow midRun 5010) in
  map (fun o => (Qred (Obstacle.x o + Obstacle.width o), Obstacle.passed o))
    (firstn 2 (obstacles st'))
  = [(4231 # 10, true); (6831 # 10, false)]
  /\ score st' = 1%Z
  /\ snd (tick halfRandom linearPow midRun 5010) = None.
Proof. vm_compute. auto. Qed.



Lemma tick_physics_witness :
  ufoY (fst (tick halfRandom linearPow midRun 5010))
  = fst (fst (physicsStep 220 0 (frameDelta 5000 5010) false (440 - 40) 40)).
Proof.
  exact (proj1 (tick_physics halfRandom linearPow midRun 5010 5000
                  eq_refl eq_refl midRun_active)).
Defined.

Lemma tick_degenerate_dt_noop_witness :
  (5000 - 5000) / 1000 <= 0
  /\ obstacles (fst (tick halfRandom linearPow midRun 5000))
     = obstacles midRun.
Proof.
  assert (Hdt : (5000 - 5000) / 1000 <= 0) by (vm_compute; discriminate).
  split; [exact Hdt |].
  apply (tick_degenerate_dt_noop halfRandom linearPow midRun 5000 5000
           eq_refl Hdt).
Defined.

(** After [resetGame] and the first frame callback, which only records its
    time, the countdown is armed. *)
Lemma armed_inCountdown :
  inCountdown
    (fst (tick halfRandom linearPow (resetGame halfRandom initialGame) 0)) 16.
Proof. split; [vm_compute; discriminate | reflexivity]. Defined.

Lemma tick_countdown_no_game_over_witness :
  snd (tick halfRandom linearPow
         (fst (tick halfRandom linearPow (resetGame halfRandom initialGame) 0))
         16) = None.
Proof.
  exact (proj1 (tick_countdown_no_game_over halfRandom linearPow _ 16
                  armed_inCountdown)).
Defined.

(** ** The further statements on concrete frames *)

Lemma tick_position_bounds_witness :
  124 <= height midRun
  /\ 40 + UFO_RADIUS <= ufoY (fst (tick halfRandom linearPow midRun 5010)).
Proof.
  assert (Hh : 124 <= height midRun) by (vm_compute; discriminate).
  split; [exact Hh |].
  exact (proj1 (tick_position_bounds halfRandom linearPow midRun 5010 5000
                  eq_refl eq_refl midRun_active Hh)).
Defined.

Lemma midRun_survives :
  snd (tick halfRandom linearPow midRun 5010) = None.
Proof. vm_compute. reflexivity. Defined.

Lemma tick_survivor_witness :
  collides (height midRun)
    (ufoY (fst (tick halfRandom linearPow midRun 5010)))
    (obstacles (fst (tick halfRandom linearPow midRun 5010))) = false.
Proof.
  exact (proj2 (proj2 (tick_survivor halfRandom linearPow midRun 5010 5000
                         eq_refl eq_refl midRun_active midRun_survives))).
Defined.

(** [diving] reaches the floor in the frame at 5010 ms: the run ends with
    the score of the obstacle passed in that frame. *)
Lemma tick_game_over_report_witness :
  exists d,
    snd (tick halfRandom linearPow diving 5010) = Some (1%Z, d)
    /\ score (fst (tick halfRandom linearPow diving 5010)) = 1%Z
    /\ lastTimeRef (fst (tick halfRandom linearPow diving 5010)) = None.
Proof.
  eexists. split; [vm_compute; reflexivity |].
  split;
    eapply (tick_game_over_report halfRandom linearPow diving 5010);
    vm_compute; reflexivity.
Defined.

Lemma tick_thrust_direction_witness :
  isThrusting midRun = false /\ 0 <= velocity midRun
  /\ ufoY midRun < ufoY (fst (tick halfRandom linearPow midRun 5010)).
Proof.
  assert (Hv : 0 <= velocity midRun) by (vm_compute; discriminate).
  split; [reflexivity |]. split; [exact Hv |].
  exact (proj2 (proj2 (tick_thrust_direction halfRandom linearPow midRun
                         5010 5000 eq_refl eq_refl midRun_active
                         midRun_survives) eq_refl Hv)).
Defined.

Lemma corridor_clear : Forall (clearOf 220) (obstacles midRun).
Proof.
  unfold midRun. cbn [obstacles map].
  repeat (apply Forall_cons;
          [right; right; (split; [| split]); vm_compute; discriminate |]).
  apply Forall_nil.
Defined.

Lemma collides_clear_witness :
  collides 440 220 (obstacles midRun) = false.
Proof. exact (collides_clear 440 220 (obstacles midRun) corridor_clear). Defined.

Lemma collides_inside_witness :
  insidePillar 440 50 (corridor 0)
  /\ collides 440 50 (obstacles midRun) = true.
Proof.
  assert (Hp : insidePillar 440 50 (corridor 0)).
  { split; [split; vm_compute; discriminate |].
    left. split; vm_compute; discriminate. }
  split; [exact Hp |].
  exact (collides_inside 440 50 (obstacles midRun) (corridor 0)
           (or_introl eq_refl) Hp).
Defined.

Lemma refill_exact_witness :
  widthsOk lateCorridor
  /\ Z.of_nat (length (fst (refill halfRandom 440 220 lateCorridor
                              (mkGen 7 7)))) = 7%Z.
Proof.
  assert (Hw : widthsOk lateCorridor) by (repeat constructor; reflexivity).
  split; [exact Hw |].
  rewrite (proj1 (refill_exact halfRandom 440 220 220 lateCorridor
                    (mkGen 7 7) (mkGen 8 8) Hw)).
  vm_compute. reflexivity.
Defined.

Lemma start_countdown_witness :
  0 < 16
  /\ length
       (obstacles
          (fst (tick halfRandom linearPow
                  (fst (tick halfRandom linearPow
                          (onPhase halfRandom GameShell.running initialGame)
                          0)) 16))) = 7%nat.
Proof.
  assert (Ht : 0 < 16) by reflexivity.
  split; [exact Ht |].
  now destruct (start_countdown halfRandom linearPow initialGame 0 16 Ht)
    as (_ & _ & _ & _ & H & _).
Defined.

Lemma midRun_ordered : pipelineOrdered (obstacles midRun) (gen midRun).
Proof.
  unfold midRun. cbn [obstacles gen map]. split.
  - repeat (apply SSorted_cons;
            [| repeat (apply Forall_cons;
                       [split; [reflexivity | vm_compute; discriminate] |]);
               apply Forall_nil]).
    apply SSorted_nil.
  - repeat (apply Forall_cons; [reflexivity |]). apply Forall_nil.
Defined.

Lemma tick_pipelineOrdered_witness :
  NoDup
    (map Obstacle.id (obstacles (fst (tick halfRandom linearPow midRun 5010)))).
Proof.
  exact (proj2 (tick_pipelineOrdered halfRandom linearPow midRun 5010
                  midRun_ordered)).
Defined.

Lemma tick_countdown_frame_witness :
  velocity
    (fst (tick halfRandom linearPow
            (fst (tick halfRandom linearPow
                    (resetGame halfRandom initialGame) 0)) 16))
  = 0.
Proof.
  now destruct (tick_countdown_frame halfRandom linearPow
                  (fst (tick halfRandom linearPow
                          (resetGame halfRandom initialGame) 0))
                  16 0 eq_refl eq_refl armed_inCountdown)
    as (_ & _ & _ & H & _).
Defined.

(** Two callbacks after [resetGame] the countdown has started, at 16 ms:
    the frame at 2000 ms is still in the countdown. *)
Lemma countdown_duration_witness :
  let s2 :=
    fst (tick halfRandom linearPow
           (fst (tick halfRandom linearPow
                   (resetGame halfRandom initialGame) 0)) 16) in
  countdownStartRef s2 = Some 16
  /\ snd (tick halfRandom linearPow s2 2000) = None.
Proof.
  cbv zeta.
  set (s2 := fst (tick halfRandom linearPow
                    (fst (tick halfRandom linearPow
                            (resetGame halfRandom initialGame) 0)) 16)).
  assert (Hl : lastTimeRef s2 = Some 16) by (vm_compute; reflexivity).
  assert (Hc : countdown s2 <> None) by (vm_compute; discriminate).
  assert (Hcs : countdownStartRef s2 = Some 16) by (vm_compute; reflexivity).
  split; [exact Hcs |].
  assert (Hlt : 16 < 2000) by reflexivity.
  assert (Hbefore : 2000 < 16 + 3000) by reflexivity.
  exact (proj1 (proj2 (proj1 (countdown_duration halfRandom linearPow s2
                                2000 16 16 Hl Hlt Hc Hcs) Hbefore))).
Defined.

Lemma keyboard_calls_alternate_witness :
  alternating true
    (inputCalls
       [KeyDown "Space"; KeyDown "Space"; KeyDown "KeyA"; KeyUp "Space";
        KeyUp "Space"; KeyDown "ArrowUp"]
       (mkHooks false false)).
Proof.
  assert (Hk : Forall keyboardEvent
                 [KeyDown "Space"; KeyDown "Space"; KeyDown "KeyA";
                  KeyUp "Space"; KeyUp "Space"; KeyDown "ArrowUp"])
    by (repeat (apply Forall_cons; [exact I |]); apply Forall_nil).
  exact (keyboard_calls_alternate _ (mkHooks false false) Hk).
Defined.

(** On that sequence the auto-repeat, the other key and the second release
    make no call. *)
Example keyboard_calls_sample :
  inputCalls
    [KeyDown "Space"; KeyDown "Space"; KeyDown "KeyA"; KeyUp "Space";
     KeyUp "Space"; KeyDown "ArrowUp"]
    (mkHooks false false)
  = [true; false; true].
Proof. vm_compute. reflexivity. Qed.

Lemma updateParallax_layers_witness :
  (forall i : nat, 0 <= halfRandom i < 1)
  /\ Forall (fun s' => -10 <= ParallaxLayer.x s')
       (fst (updateParallax halfRandom (1 # 2) (1 # 30)
               [ParallaxLayer.mk (-9) 90 2 (1 # 10);
                ParallaxLayer.mk 500 20 1 (1 # 5)] 0)).
Proof.
  assert (Hr : forall i : nat, 0 <= halfRandom i < 1)
    by (intros i; split; [vm_compute; discriminate | reflexivity]).
  split; [exact Hr |].
  exact (proj1 (proj2 (updateParallax_layers halfRandom (1 # 2) (1 # 30)
                         [ParallaxLayer.mk (-9) 90 2 (1 # 10);
                          ParallaxLayer.mk 500 20 1 (1 # 5)] 0 Hr))).
Defined.

End GameCanvas.

(* ================================================================== *)
(** * Properties of the shell                                           *)
(* ================================================================== *)

Module GameShellFacts.

Import GameShell.

(** ** Startup *)

Example parseInt_samples :
  parseInt "12" = Some 12%Z
  /\ parseInt "  -7px" = Some (-7)%Z
  /\ parseInt "0x1f" = Some 31%Z
  /\ parseInt "-0" = Some 0%Z
  /\ parseInt "" = None
  /\ parseInt "best" = None.
Proof. vm_compute. auto 10. Qed.

(** C10.  The initial stats have score, distance and runs 0.  The best score
    is the integer parsed from the stored value when there is one and it
    parses to a nonzero integer, and 0 when there is no window, no stored
    value, or a stored value that does not parse to a number. *)
Theorem createInitialStats_spec (w : option Storage) :
  let s := createInitialStats w in
  score s = 0%Z /\ distance s = 0 /\ runs s = 0%Z
  /\ (forall ls v n,
        w = Some ls -> getItem bestKey ls = Some v ->
        parseInt v = Some n -> n <> 0%Z -> bestScore s = n)
  /\ (w = None
      \/ (exists ls, w = Some ls /\ getItem bestKey ls = None)
      \/ (exists ls v,
            w = Some ls /\ getItem bestKey ls = Some v /\ parseInt v = None)
      -> bestScore s = 0%Z).
Proof.
  cbv zeta. unfold createInitialStats. cbn [score distance runs bestScore].
  split; [reflexivity |]. split; [reflexivity |]. split; [reflexivity |].
  split.
  - intros ls v n -> -> Hp Hn.
    destruct v as [|c v]; [discriminate |].
    rewrite Hp. apply Z.eqb_neq in Hn. now rewrite Hn.
  - intros [-> | [(ls & -> & ->) | (ls & v & -> & -> & Hp)]];
      try reflexivity.
    destruct v as [|c v]; [reflexivity |]. now rewrite Hp.
Qed.

Example createInitialStats_samples :
  bestScore (createInitialStats (Some (setItem bestKey "5" emptyStorage)))
  = 5%Z
  /\ bestScore (createInitialStats (Some (setItem bestKey "n/a" emptyStorage)))
     = 0%Z
  /\ bestScore (createInitialStats (Some emptyStorage)) = 0%Z
  /\ bestScore (createInitialStats None) = 0%Z.
Proof. vm_compute. auto. Qed.

(** ** Persistence *)

(** [updateStats] writes only when the patch changes the best score. *)
Lemma updateStats_no_best (patch : StatsPatch) (sh : Shell) :
  p_bestScore patch = None ->
  window (updateStats patch sh) = window sh.
Proof.
  intros H. unfold updateStats, applyPatch. cbn [window bestScore].
  rewrite H, Z.eqb_refl. cbn [negb]. now destruct (window sh).
Qed.

(** No handler of the shell changes the storage. *)
Lemma act_keeps_storage (a : Action) (sh : Shell) :
  window (act a sh) = window sh.
Proof.
  destruct a; cbn [act].
  - unfold handleStart. now rewrite updateStats_no_best.
  - reflexivity.
  - unfold handleRestart. now rewrite updateStats_no_best.
  - reflexivity.
Qed.

Lemma run_keeps_storage (acts : list Action) :
  forall sh : Shell, window (run acts sh) = window sh.
Proof.
  induction acts as [|a acts IH]; intros sh; [reflexivity |].
  unfold run in *. cbn [fold_left]. rewrite IH. apply act_keeps_storage.
Qed.

(** [handleGameOver] does raise the best score in the stats. *)
Lemma handleGameOver_best (score0 : Z) (distance0 : Q) (sh : Shell) :
  bestScore (stats (handleGameOver score0 distance0 sh))
  = Z.max score0 (bestScore (stats sh)).
Proof.
  unfold handleGameOver. cbn.
  destruct (bestScore (stats sh) <? score0)%Z eqn:E.
  - apply Z.ltb_lt in E. lia.
  - apply Z.ltb_ge in E. lia.
Qed.

(** C1, on the code.  With 5 stored, a run that ends with score 7 raises the
    best score of the stats to 7 and leaves 5 in the storage, so the next
    startup reads 5 again; and no sequence of handler calls ever changes
    the storage. *)
Theorem new_best_not_persisted :
  let sh0 := initialShell (Some (setItem bestKey "5" emptyStorage)) in
  let sh := run [Start; GameOver 7 1200] sh0 in
  bestScore (stats sh0) = 5%Z
  /\ bestScore (stats sh) = 7%Z
  /\ persisted sh = Some "5"%string
  /\ bestScore (createInitialStats (window sh)) = 5%Z
  /\ (forall acts sh1, window (run acts sh1) = window sh1).
Proof.
  cbv zeta.
  split; [vm_compute; reflexivity |]. split; [vm_compute; reflexivity |].
  split; [vm_compute; reflexivity |]. split; [vm_compute; reflexivity |].
  intros acts sh1. apply run_keeps_storage.
Qed.

(** ** Handlers *)

(** Pausing and resuming undo each other: toggling twice gives back the
    shell as it was, from any phase; on an idle or finished shell one
    toggle already does nothing; and a toggle touches neither the stats nor
    the storage. *)
Theorem handlePauseToggle_involutive (sh : Shell) :
  handlePauseToggle (handlePauseToggle sh) = sh
  /\ (phase sh = idle \/ phase sh = over -> handlePauseToggle sh = sh)
  /\ stats (handlePauseToggle sh) = stats sh
  /\ window (handlePauseToggle sh) = window sh.
Proof.
  destruct sh as [p st l w].
  destruct p; cbn; repeat split; auto; intros [H | H]; discriminate.
Qed.

Lemma act_stats (a : Action) (sh : Shell) :
  bestScore (stats (act a sh))
  = match a with
    | GameOver s _ => Z.max s (bestScore (stats sh))
    | _ => bestScore (stats sh)
    end
  /\ runs (stats (act a sh))
     = match a with
       | Start => (runs (stats sh) + 1)%Z
       | _ => runs (stats sh)
       end.
Proof.
  destruct a; cbn [act]; try (split; reflexivity).
  split; [apply handleGameOver_best | reflexivity].
Qed.

Lemma bestAfter_ge (acts : list Action) :
  forall best : Z, (best <= bestAfter acts best)%Z.
Proof.
  unfold bestAfter. induction acts as [|a acts IH]; intros best; cbn; [lia |].
  destruct a; try apply IH.
  specialize (IH (Z.max score0 best)). lia.
Qed.

(** Over any sequence of handler calls the best score of the stats never
    decreases: it is the largest of the best score before and of the scores
    of the runs that ended. *)
Theorem run_best_score (acts : list Action) (sh : Shell) :
  bestScore (stats (run acts sh)) = bestAfter acts (bestScore (stats sh))
  /\ (bestScore (stats sh) <= bestScore (stats (run acts sh)))%Z.
Proof.
  assert (H : bestScore (stats (run acts sh))
              = bestAfter acts (bestScore (stats sh))).
  { revert sh. unfold run, bestAfter.
    induction acts as [|a acts IH]; intros sh; [reflexivity |].
    cbn [fold_left]. rewrite IH.
    destruct (act_stats a sh) as [-> _]. now destruct a. }
  split; [exact H |]. rewrite H. apply bestAfter_ge.
Qed.

(** The run counter counts the starts: every [handleStart] adds one,
    [handleRestart] and the other handlers add nothing. *)
Theorem run_counts_starts (acts : list Action) (sh : Shell) :
  runs (stats (run acts sh)) = (runs (stats sh) + startsIn acts)%Z.
Proof.
  revert sh. unfold run, startsIn.
  induction acts as [|a acts IH]; intros sh; [cbn; lia |].
  cbn [fold_left filter]. rewrite IH.
  destruct (act_stats a sh) as [_ ->].
  destruct a; cbn [length]; lia.
Qed.

(** ** Writing the best score and reading it back *)

Lemma radixDigits_uint (d : Decimal.uint) :
  radixDigits 10 (NilEmpty.string_of_uint d) = digitsOf d.
Proof.
  induction d; cbn [NilEmpty.string_of_uint radixDigits digitsOf];
    try reflexivity; rewrite <- IHd; reflexivity.
Qed.

Lemma mathInt_acc (d : Decimal.uint) :
  forall acc : positive,
    fold_left (fun a x => (a * 10 + x)%Z) (digitsOf d) (Z.pos acc)
    = Z.pos (Pos.of_uint_acc d acc).
Proof.
  induction d; intros acc; cbn [digitsOf fold_left Pos.of_uint_acc];
    try reflexivity;
    match goal with
    | |- fold_left _ _ ?z = Z.pos (Pos.of_uint_acc _ ?p) =>
        replace z with (Z.pos p) by lia
    end; apply IHd.
Qed.

Lemma mathInt_uint (d : Decimal.uint) :
  mathInt 10 (digitsOf d) = Z.of_N (Pos.of_uint d).
Proof.
  unfold mathInt.
  induction d; cbn [digitsOf fold_left Pos.of_uint]; try reflexivity;
    try (exact IHd);
    match goal with
    | |- fold_left _ _ ?z = Z.of_N (N.pos (Pos.of_uint_acc _ ?p)) =>
        change z with (Z.pos p)
    end; apply mathInt_acc.
Qed.

(** Runs [parseInt] on a numeral whose leading digits are known. *)
Ltac parse_digits :=
  unfold parseInt; cbn [NilEmpty.string_of_uint trimStart];
  cbv beta iota zeta delta
    [isWhiteSpace nat_of_ascii N_of_ascii N_of_digits Nat.eqb orb N.to_nat
     N.add N.mul Pos.to_nat Pos.iter_op Nat.add Pos.add Pos.mul Pos.succ];
  match goal with
  | |- context [digitsOf ?u] =>
      let H := fresh in
      pose proof (radixDigits_uint u) as H;
      cbn [NilEmpty.string_of_uint] in H; rewrite H; clear H
  end;
  cbn [digitsOf]; split; f_equal; lia.

Lemma parseInt_uint (d : Decimal.uint) :
  d <> Decimal.Nil ->
  parseInt (NilEmpty.string_of_uint d) = Some (Z.of_N (Pos.of_uint d))
  /\ parseInt (String "-" (NilEmpty.string_of_uint d))
     = Some (- Z.of_N (Pos.of_uint d))%Z.
Proof.
  intros Hd. rewrite <- mathInt_uint.
  destruct d as [|d|d|d|d|d|d|d|d|d|d]; [congruence | | ..];
    [destruct d as [|d|d|d|d|d|d|d|d|d|d] | ..]; parse_digits.
Qed.

Lemma String_of_numeral (n : Z) :
  (Z.abs n < 10 ^ 21)%Z ->
  String_of n = NilZero.string_of_int (Z.to_int n).
Proof.
  intros H. unfold String_of. apply Z.ltb_lt in H. now rewrite H.
Qed.

(** [Number.parseInt(String(n))] is [n], for every integer [n] below 10^21
    in magnitude. *)
Lemma parseInt_String_of (n : Z) :
  (Z.abs n < 10 ^ 21)%Z -> parseInt (String_of n) = Some n.
Proof.
  intros Hn. rewrite (String_of_numeral n Hn). clear Hn.
  destruct n as [|p|p]; [reflexivity | |].
  - unfold Z.to_int, NilZero.string_of_int, NilZero.string_of_uint.
    pose proof (DecimalPos.Unsigned.to_uint_nonnil p) as Hnil.
    pose proof (DecimalPos.Unsigned.of_to p) as Hof.
    destruct (Pos.to_uint p) eqn:E; [congruence | ..];
      rewrite <- E in *;
      destruct (parseInt_uint (Pos.to_uint p) Hnil) as [H _];
      rewrite E in H |- *; rewrite H; rewrite <- E, Hof; reflexivity.
  - unfold Z.to_int, NilZero.string_of_int, NilZero.string_of_uint.
    pose proof (DecimalPos.Unsigned.to_uint_nonnil p) as Hnil.
    pose proof (DecimalPos.Unsigned.of_to p) as Hof.
    destruct (Pos.to_uint p) eqn:E; [congruence | ..];
      rewrite <- E in *;
      destruct (parseInt_uint (Pos.to_uint p) Hnil) as [_ H];
      rewrite E in H |- *; rewrite H; rewrite <- E, Hof; reflexivity.
Qed.

(** From 10^21 on [String] gives the exponent form, of which [parseInt]
    reads the digits before the point: the round trip ends there. *)
Example String_of_exponent :
  String_of (10 ^ 21 - 1) = "999999999999999999999"%string
  /\ String_of (10 ^ 21) = "1e+21"%string
  /\ String_of (15 * 10 ^ 20) = "1.5e+21"%string
  /\ String_of (- 10 ^ 21) = "-1e+21"%string
  /\ parseInt (String_of (10 ^ 21)) = Some 1%Z.
Proof. vm_compute. auto 10. Qed.

(** When [updateStats] is given a patch whose best score differs from the
    current one and is a safe integer (at most 2^53 - 1 in magnitude), it
    stores the decimal numeral of the new best score under the key, leaves
    every other key alone, and the next startup reads that best score
    back.  (No handler of the shell passes such a patch.) *)
Theorem updateStats_persists (patch : StatsPatch) (n : Z) (sh : Shell)
  (ls : Storage)
  (Hw : window sh = Some ls) (Hp : p_bestScore patch = Some n)
  (Hn : n <> bestScore (stats sh))
  (Hsafe : (Z.abs n <= 2 ^ 53 - 1)%Z) :
  let sh' := updateStats patch sh in
  persisted sh' = Some (NilZero.string_of_int (Z.to_int n))
  /\ bestScore (stats sh') = n
  /\ bestScore (createInitialStats (window sh')) = n
  /\ (forall k, k <> bestKey ->
        match window sh' with
        | Some ls' => getItem k ls' = getItem k ls
        | None => False
        end).
Proof.
  assert (Hlt : (Z.abs n < 10 ^ 21)%Z).
  { assert (H : (2 ^ 53 - 1 < 10 ^ 21)%Z) by reflexivity. lia. }
  cbv zeta. unfold persisted, updateStats, applyPatch.
  cbn [window stats bestScore]. rewrite Hw, Hp.
  apply Z.eqb_neq in Hn. rewrite Hn. cbn [negb].
  assert (Hget : getItem bestKey (setItem bestKey (String_of n) ls)
                 = Some (String_of n))
    by (unfold getItem, setItem; now rewrite String.eqb_refl).
  split; [rewrite Hget, (String_of_numeral n Hlt); reflexivity |].
  split; [reflexivity |]. split.
  - unfold createInitialStats. cbn [bestScore]. rewrite Hget.
    pose proof (parseInt_String_of n Hlt) as Hrt.
    destruct (String_of n) as [|c s]; [discriminate |].
    rewrite Hrt. destruct (n =? 0)%Z eqn:E; [| reflexivity].
    apply Z.eqb_eq in E. now subst.
  - intros k Hk. unfold getItem, setItem.
    destruct (String.eqb bestKey k) eqn:E; [| reflexivity].
    apply String.eqb_eq in E. congruence.
Qed.

Lemma updateStats_persists_witness :
  (Z.abs 7 <= 2 ^ 53 - 1)%Z
  /\ bestScore
       (createInitialStats
          (window
             (updateStats (mkPatch None (Some 7%Z) None None)
                (initialShell (Some emptyStorage))))) = 7%Z.
Proof.
  assert (Hn : 7%Z <> bestScore (stats (initialShell (Some emptyStorage))))
    by (vm_compute; discriminate).
  assert (Hsafe : (Z.abs 7 <= 2 ^ 53 - 1)%Z) by (vm_compute; discriminate).
  split; [exact Hsafe |].
  exact (proj1 (proj2 (proj2
    (updateStats_persists (mkPatch None (Some 7%Z) None None) 7
       (initialShell (Some emptyStorage)) emptyStorage
       eq_refl eq_refl Hn Hsafe)))).
Defined.

End GameShellFacts.
